(** * ARENA tournament management: the core of [system.py]

    A shallow embedding of [ArenaSystem] (src/system.py, repeated verbatim
    in src/arena_tournament_system.py), of the enumerations of src/enums.py
    and, from the GUI, of the operator's [approve_user] action and of the
    loops that fill the lists of the player's and the spectator's
    dashboards.

    - The five collections are Python dicts keyed by strings: [gmap string _].
    - The records stored in them are dicts with a fixed set of keys: Rocq
      records, one module per entity.
    - [self.current_user] is an alias of a record of [self.users]: it is
      kept as the key of that record, and read through the collection.
    - The JSON file is part of the state ([data_file]); [json.dump] followed
      by [json.load] is the identity on JSON values, on floats too: a float
      is written by its shortest [repr], which reads back as the same
      float, and NaN and the infinities are written and read as such.
    - The cost of an advertisement is a float, as the GUI passes it
      ([float(cost_entry.get())]): a binary64 value of [SpecFloat].
    - [datetime.now().isoformat()] is an argument [now] of each operation.
    - Python exceptions are explicit: an operation returns [Ok v] or
      [Raise e] together with the state it leaves behind. *)

From stdpp Require Import gmap strings list fin_maps pretty.
From Stdlib Require Import ZArith Lia Ascii SpecFloat.

Local Open Scope string_scope.
Set Warnings "-register-all".

(** ** enums.py *)

Module UserRole.
Inductive t := OPERATOR | LEAGUE_OWNER | PLAYER | SPECTATOR | ADVERTISER.
Definition value (r : t) : string :=
  match r with
  | OPERATOR => "Operator"
  | LEAGUE_OWNER => "League Owner"
  | PLAYER => "Player"
  | SPECTATOR => "Spectator"
  | ADVERTISER => "Advertiser"
  end.
End UserRole.

Module TournamentStatus.
Inductive t := ANNOUNCED | OPEN_FOR_REGISTRATION | IN_PROGRESS | COMPLETED | ARCHIVED.
Definition value (s : t) : string :=
  match s with
  | ANNOUNCED => "Announced"
  | OPEN_FOR_REGISTRATION => "Open for Registration"
  | IN_PROGRESS => "In Progress"
  | COMPLETED => "Completed"
  | ARCHIVED => "Archived"
  end.
End TournamentStatus.

Module MatchStatus.
Inductive t := SCHEDULED | LIVE | COMPLETED.
Definition value (s : t) : string :=
  match s with
  | SCHEDULED => "Scheduled"
  | LIVE => "Live"
  | COMPLETED => "Completed"
  end.
End MatchStatus.

(** ** Floats *)

(** A Python float: a binary64 value, NaN and the infinities included. *)
Definition float : Type := spec_float.


(** The float nearest to [m * 2 ** e]. *)
Definition float_of (m e : Z) : float := binary_normalize 53 1024 m e false.

(** [x == y] on two floats that are not one and the same object, as are a
    float a caller passes and a float [json.load] builds: NaN equals
    nothing, NaN included, and the two zeros are equal. *)
Definition float_eq (x y : float) : bool := SFeqb x y.

(** ** JSON values, as [json.load] returns them *)

Inductive json :=
| JNull
| JBool (b : bool)
| JInt (n : Z)
| JFloat (x : float)
| JStr (s : string)
| JList (l : list json)
| JDict (kvs : list (string * json)).

(** [d.get(k)] on a parsed object. *)
Fixpoint jget (k : string) (kvs : list (string * json)) : option json :=
  match kvs with
  | [] => None
  | (k', v) :: rest => if String.eqb k k' then Some v else jget k rest
  end.

(** Typed readers of a field: [None] when the field does not have the shape
    the program itself writes. *)
Definition get_str (k : string) (kvs : list (string * json)) : option string :=
  match jget k kvs with Some (JStr s) => Some s | _ => None end.

Definition get_int (k : string) (kvs : list (string * json)) : option Z :=
  match jget k kvs with Some (JInt n) => Some n | _ => None end.

Definition get_float (k : string) (kvs : list (string * json)) : option float :=
  match jget k kvs with Some (JFloat x) => Some x | _ => None end.

Definition get_bool (k : string) (kvs : list (string * json)) : option bool :=
  match jget k kvs with Some (JBool b) => Some b | _ => None end.

(** [d.get(k, False)] *)
Definition get_bool_default (k : string) (kvs : list (string * json)) : option bool :=
  match jget k kvs with
  | None => Some false
  | Some (JBool b) => Some b
  | Some _ => None
  end.

(** A field that holds [None] or a string. *)
Definition get_none_or_str (k : string) (kvs : list (string * json))
  : option (option string) :=
  match jget k kvs with
  | Some JNull => Some None
  | Some (JStr s) => Some (Some s)
  | _ => None
  end.

(** A string field that some records do not have. *)
Definition get_absent_or_str (k : string) (kvs : list (string * json))
  : option (option string) :=
  match jget k kvs with
  | None => Some None
  | Some (JStr s) => Some (Some s)
  | Some _ => None
  end.

Definition as_str (j : json) : option string :=
  match j with JStr s => Some s | _ => None end.

Definition get_str_list (k : string) (kvs : list (string * json))
  : option (list string) :=
  match jget k kvs with
  | Some (JList l) => mapM as_str l
  | _ => None
  end.

Definition absent_or_str_to_json (k : string) (o : option string)
  : list (string * json) :=
  match o with Some d => [(k, JStr d)] | None => [] end.

Definition none_or_str_to_json (o : option string) : json :=
  match o with Some s => JStr s | None => JNull end.

(** ** The five kinds of records *)

Module User.
Record t := mk {
  username : string;
  password : string;
  name : string;
  email : string;
  role : string;
  approved : bool;
  registered_date : option string  (* the bootstrap account has none *)
}.

Definition set_approved (b : bool) (u : t) : t :=
  mk (username u) (password u) (name u) (email u) (role u) b (registered_date u).

Definition to_json (u : t) : json :=
  JDict ([("username", JStr (username u));
          ("password", JStr (password u));
          ("name", JStr (name u));
          ("email", JStr (email u));
          ("role", JStr (role u));
          ("approved", JBool (approved u))]
         ++ absent_or_str_to_json "registered_date" (registered_date u)).

Definition of_json (j : json) : option t :=
  match j with
  | JDict kvs =>
      un ← get_str "username" kvs;
      pw ← get_str "password" kvs;
      nm ← get_str "name" kvs;
      em ← get_str "email" kvs;
      rl ← get_str "role" kvs;
      ap ← get_bool_default "approved" kvs;
      rd ← get_absent_or_str "registered_date" kvs;
      Some (mk un pw nm em rl ap rd)
  | _ => None
  end.
End User.

Module League.
Record t := mk {
  league_id : string;
  name : string;
  game_type : string;
  description : string;
  owner : string;
  created_date : string;
  tournaments : list string
}.

Definition append_tournament (tid : string) (l : t) : t :=
  mk (league_id l) (name l) (game_type l) (description l) (owner l)
     (created_date l) (tournaments l ++ [tid]).

Definition to_json (l : t) : json :=
  JDict [("league_id", JStr (league_id l));
         ("name", JStr (name l));
         ("game_type", JStr (game_type l));
         ("description", JStr (description l));
         ("owner", JStr (owner l));
         ("created_date", JStr (created_date l));
         ("tournaments", JList (JStr <$> tournaments l))].

Definition of_json (j : json) : option t :=
  match j with
  | JDict kvs =>
      i ← get_str "league_id" kvs;
      nm ← get_str "name" kvs;
      gt ← get_str "game_type" kvs;
      ds ← get_str "description" kvs;
      ow ← get_str "owner" kvs;
      cd ← get_str "created_date" kvs;
      ts ← get_str_list "tournaments" kvs;
      Some (mk i nm gt ds ow cd ts)
  | _ => None
  end.
End League.

Module Tournament.
Record t := mk {
  tournament_id : string;
  league_id : string;
  name : string;
  start_date : string;
  max_players : Z;
  prize_pool : string;
  status : string;
  participants : list string;
  matches : list string;
  winner : option string;
  created_by : string;
  created_date : string
}.

Definition set_status (st : string) (x : t) : t :=
  mk (tournament_id x) (league_id x) (name x) (start_date x) (max_players x)
     (prize_pool x) st (participants x) (matches x) (winner x)
     (created_by x) (created_date x).

Definition set_winner (w : option string) (x : t) : t :=
  mk (tournament_id x) (league_id x) (name x) (start_date x) (max_players x)
     (prize_pool x) (status x) (participants x) (matches x) w
     (created_by x) (created_date x).

Definition append_participant (u : string) (x : t) : t :=
  mk (tournament_id x) (league_id x) (name x) (start_date x) (max_players x)
     (prize_pool x) (status x) (participants x ++ [u]) (matches x) (winner x)
     (created_by x) (created_date x).

Definition append_match (m : string) (x : t) : t :=
  mk (tournament_id x) (league_id x) (name x) (start_date x) (max_players x)
     (prize_pool x) (status x) (participants x) (matches x ++ [m]) (winner x)
     (created_by x) (created_date x).

Definition to_json (x : t) : json :=
  JDict [("tournament_id", JStr (tournament_id x));
         ("league_id", JStr (league_id x));
         ("name", JStr (name x));
         ("start_date", JStr (start_date x));
         ("max_players", JInt (max_players x));
         ("prize_pool", JStr (prize_pool x));
         ("status", JStr (status x));
         ("participants", JList (JStr <$> participants x));
         ("matches", JList (JStr <$> matches x));
         ("winner", none_or_str_to_json (winner x));
         ("created_by", JStr (created_by x));
         ("created_date", JStr (created_date x))].

Definition of_json (j : json) : option t :=
  match j with
  | JDict kvs =>
      i ← get_str "tournament_id" kvs;
      li ← get_str "league_id" kvs;
      nm ← get_str "name" kvs;
      sd ← get_str "start_date" kvs;
      mp ← get_int "max_players" kvs;
      pp ← get_str "prize_pool" kvs;
      st ← get_str "status" kvs;
      ps ← get_str_list "participants" kvs;
      ms ← get_str_list "matches" kvs;
      w ← get_none_or_str "winner" kvs;
      cb ← get_str "created_by" kvs;
      cd ← get_str "created_date" kvs;
      Some (mk i li nm sd mp pp st ps ms w cb cd)
  | _ => None
  end.
End Tournament.

Module Match.
Record t := mk {
  match_id : string;
  tournament_id : string;
  player1 : string;
  player2 : string;
  status : string;
  winner : option string;
  score : string;
  created_date : string;
  completed_date : option string  (* added by [record_match_result] *)
}.

Definition to_json (m : t) : json :=
  JDict ([("match_id", JStr (match_id m));
          ("tournament_id", JStr (tournament_id m));
          ("player1", JStr (player1 m));
          ("player2", JStr (player2 m));
          ("status", JStr (status m));
          ("winner", none_or_str_to_json (winner m));
          ("score", JStr (score m));
          ("created_date", JStr (created_date m))]
         ++ absent_or_str_to_json "completed_date" (completed_date m)).

Definition of_json (j : json) : option t :=
  match j with
  | JDict kvs =>
      i ← get_str "match_id" kvs;
      ti ← get_str "tournament_id" kvs;
      p1 ← get_str "player1" kvs;
      p2 ← get_str "player2" kvs;
      st ← get_str "status" kvs;
      w ← get_none_or_str "winner" kvs;
      sc ← get_str "score" kvs;
      cd ← get_str "created_date" kvs;
      fd ← get_absent_or_str "completed_date" kvs;
      Some (mk i ti p1 p2 st w sc cd fd)
  | _ => None
  end.
End Match.

Module Advertisement.
Record t := mk {
  ad_id : string;
  title : string;
  content : string;
  cost : float;   (* the core only stores it and writes it back *)
  advertiser : string;
  created_date : string;
  active : bool
}.

Definition to_json (a : t) : json :=
  JDict [("ad_id", JStr (ad_id a));
         ("title", JStr (title a));
         ("content", JStr (content a));
         ("cost", JFloat (cost a));
         ("advertiser", JStr (advertiser a));
         ("created_date", JStr (created_date a));
         ("active", JBool (active a))].

Definition of_json (j : json) : option t :=
  match j with
  | JDict kvs =>
      i ← get_str "ad_id" kvs;
      ti ← get_str "title" kvs;
      ct ← get_str "content" kvs;
      co ← get_float "cost" kvs;
      ad ← get_str "advertiser" kvs;
      cd ← get_str "created_date" kvs;
      ac ← get_bool "active" kvs;
      Some (mk i ti ct co ad cd ac)
  | _ => None
  end.

(** [a == b] on two advertisements: field by field, the costs as floats. *)
Definition eqb (a b : t) : bool :=
  bool_decide (ad_id a = ad_id b)
  && bool_decide (title a = title b)
  && bool_decide (content a = content b)
  && float_eq (cost a) (cost b)
  && bool_decide (advertiser a = advertiser b)
  && bool_decide (created_date a = created_date b)
  && bool_decide (active a = active b).
End Advertisement.

(** The records without a float hold strings, ints, bools, [None] and lists
    of strings: on them [==] is equality of the values. *)
#[global] Instance user_eq_dec : EqDecision User.t.
Proof. solve_decision. Defined.
#[global] Instance league_eq_dec : EqDecision League.t.
Proof. solve_decision. Defined.
#[global] Instance tournament_eq_dec : EqDecision Tournament.t.
Proof. solve_decision. Defined.
#[global] Instance match_eq_dec : EqDecision Match.t.
Proof. solve_decision. Defined.


(** ** The state of an [ArenaSystem] and of its file *)

(** What [self.data_file] holds: no file, a text [json.load] rejects, or a
    JSON value. *)
Inductive file :=
| Missing
| Garbled
| Document (data : json).

Record ArenaSystem := mkArena {
  users : gmap string User.t;
  leagues : gmap string League.t;
  tournaments : gmap string Tournament.t;
  matches : gmap string Match.t;
  advertisements : gmap string Advertisement.t;
  current_user : option string;  (* key of the aliased record of [users] *)
  data_file : file
}.

Definition upd_users (f : gmap string User.t → gmap string User.t)
  (s : ArenaSystem) : ArenaSystem :=
  mkArena (f (users s)) (leagues s) (tournaments s) (matches s)
          (advertisements s) (current_user s) (data_file s).

Definition upd_leagues (f : gmap string League.t → gmap string League.t)
  (s : ArenaSystem) : ArenaSystem :=
  mkArena (users s) (f (leagues s)) (tournaments s) (matches s)
          (advertisements s) (current_user s) (data_file s).

Definition upd_tournaments
  (f : gmap string Tournament.t → gmap string Tournament.t)
  (s : ArenaSystem) : ArenaSystem :=
  mkArena (users s) (leagues s) (f (tournaments s)) (matches s)
          (advertisements s) (current_user s) (data_file s).

Definition upd_matches (f : gmap string Match.t → gmap string Match.t)
  (s : ArenaSystem) : ArenaSystem :=
  mkArena (users s) (leagues s) (tournaments s) (f (matches s))
          (advertisements s) (current_user s) (data_file s).

Definition upd_advertisements
  (f : gmap string Advertisement.t → gmap string Advertisement.t)
  (s : ArenaSystem) : ArenaSystem :=
  mkArena (users s) (leagues s) (tournaments s) (matches s)
          (f (advertisements s)) (current_user s) (data_file s).

Definition set_current_user (c : option string) (s : ArenaSystem) : ArenaSystem :=
  mkArena (users s) (leagues s) (tournaments s) (matches s)
          (advertisements s) c (data_file s).

Definition set_data_file (f : file) (s : ArenaSystem) : ArenaSystem :=
  mkArena (users s) (leagues s) (tournaments s) (matches s)
          (advertisements s) (current_user s) f.

(** ** Methods: state and exceptions *)

Inductive exn := TypeError | KeyError | IndexError.

Inductive res (A : Type) :=
| Ok (a : A)
| Raise (e : exn).
Arguments Ok {A} a.
Arguments Raise {A} e.

Definition M (A : Type) : Type := ArenaSystem → res A * ArenaSystem.

#[global] Instance M_ret : MRet M := λ A a s, (Ok a, s).
#[global] Instance M_bind : MBind M := λ A B f m s,
  match m s with
  | (Ok a, s') => f a s'
  | (Raise e, s') => (Raise e, s')
  end.

Definition raise {A} (e : exn) : M A := λ s, (Raise e, s).
Definition get : M ArenaSystem := λ s, (Ok s, s).
Definition modify (f : ArenaSystem → ArenaSystem) : M unit := λ s, (Ok tt, f s).

(** [for x in xs: acc = body(x, acc)] *)
Fixpoint for_each {A B} (xs : list A) (acc : B) (body : A → B → M B) : M B :=
  match xs with
  | [] => mret acc
  | x :: rest => acc' ← body x acc; for_each rest acc' body
  end.

(** [range(start, stop, step)] for a positive step. *)
Fixpoint range_from (fuel start stop step : nat) : list nat :=
  match fuel with
  | 0 => []
  | S fuel' =>
      if bool_decide (start < stop)
      then start :: range_from fuel' (start + step) stop step
      else []
  end.

Definition range (start stop step : nat) : list nat :=
  range_from stop start stop step.

(** [l[i]] *)
Definition index (l : list string) (i : nat) : M string :=
  match l !! i with
  | Some x => mret x
  | None => raise IndexError
  end.

(** [self.current_user["username"]]: [None] is not subscriptable. The
    record is read through its key; records are never removed from
    [users], so the key stays bound. *)
Definition current_username : M string :=
  s ← get;
  match current_user s with
  | None => raise TypeError
  | Some k =>
      match users s !! k with
      | Some u => mret (User.username u)
      | None => raise KeyError
      end
  end.

(** ** Data persistence *)

Definition dump_collection {A} (to_json : A → json) (m : gmap string A) : json :=
  JDict (prod_map id to_json <$> map_to_list m).

Definition dump (s : ArenaSystem) : json :=
  JDict [("users", dump_collection User.to_json (users s));
         ("leagues", dump_collection League.to_json (leagues s));
         ("tournaments", dump_collection Tournament.to_json (tournaments s));
         ("matches", dump_collection Match.to_json (matches s));
         ("advertisements", dump_collection Advertisement.to_json (advertisements s))].

Definition save_data : M unit :=
  s ← get;
  modify (set_data_file (Document (dump s))).

(** The typed view of a loaded collection; [None] when the value is not a
    dict of records of the shape the program writes. *)
Definition load_entry {A} (of_json : json → option A) (kv : string * json)
  : option (string * A) :=
  pair kv.1 <$> of_json kv.2.

Definition load_collection {A} (of_json : json → option A) (j : json)
  : option (gmap string A) :=
  match j with
  | JDict kvs => list_to_map <$> mapM (load_entry of_json) kvs
  | _ => None
  end.

(** [load_data]: [None] stands for a document that parses but holds values
    outside the typed view, which the program never writes. A document that
    is not an object makes [data.get] raise, which the bare [except]
    swallows before anything is assigned. *)
Definition load_data (s : ArenaSystem) : option ArenaSystem :=
  match data_file s with
  | Missing => Some s
  | Garbled => Some s
  | Document (JDict data) =>
      us ← load_collection User.of_json (default (JDict []) (jget "users" data));
      ls ← load_collection League.of_json (default (JDict []) (jget "leagues" data));
      ts ← load_collection Tournament.of_json (default (JDict []) (jget "tournaments" data));
      ms ← load_collection Match.of_json (default (JDict []) (jget "matches" data));
      ads ← load_collection Advertisement.of_json
              (default (JDict []) (jget "advertisements" data));
      Some (mkArena us ls ts ms ads (current_user s) (data_file s))
  | Document _ => Some s
  end.

Definition default_admin : User.t :=
  User.mk "admin" "admin123" "System Administrator" "admin@arena.com"
          (UserRole.value UserRole.OPERATOR) true None.

Definition __init__ (f : file) : option ArenaSystem :=
  s ← load_data (mkArena ∅ ∅ ∅ ∅ ∅ None f);
  match users s !! "admin" with
  | None => Some (upd_users <["admin" := default_admin]> s)
  | Some _ => Some s
  end.

(** ** Comparing two stores *)



(** ** User management *)

Definition register_user (username password name email role now : string)
  : M (bool * string) :=
  s ← get;
  match users s !! username with
  | Some _ => mret (false, "Username already exists")
  | None =>
      modify (upd_users <[username :=
        User.mk username password name email role
          (if bool_decide (role ≠ UserRole.value UserRole.SPECTATOR)
           then false else true)
          (Some now)]>);;
      save_data;;
      mret (true, "Registration successful. Account pending approval.")
  end.

Definition login (username password : string) : M (bool * string) :=
  s ← get;
  match users s !! username with
  | None => mret (false, "User not found")
  | Some user =>
      if bool_decide (User.password user ≠ password)
      then mret (false, "Invalid password")
      else if negb (User.approved user)
      then mret (false, "Account not approved yet")
      else
        modify (set_current_user (Some username));;
        mret (true, "Login successful")
  end.

(** The operator's action of the GUI, once a row is selected:
    [self.system.users[username]["approved"] = True; self.system.save_data()] *)
Definition approve_user (username : string) : M unit :=
  s ← get;
  match users s !! username with
  | None => raise KeyError
  | Some _ =>
      modify (upd_users (alter (User.set_approved true) username));;
      save_data
  end.

(** ** League management *)

Definition create_league (name game_type description now : string) : M string :=
  s ← get;
  let league_id := "LEAGUE_" +:+ pretty (size (leagues s) + 1) in
  owner ← current_username;
  modify (upd_leagues <[league_id :=
    League.mk league_id name game_type description owner now []]>);;
  save_data;;
  mret league_id.

(** ** Tournament management *)

Definition create_tournament (league_id name start_date : string)
  (max_players : Z) (prize_pool now : string) : M string :=
  s ← get;
  let tournament_id := "TOUR_" +:+ pretty (size (tournaments s) + 1) in
  created_by ← current_username;
  modify (upd_tournaments <[tournament_id :=
    Tournament.mk tournament_id league_id name start_date max_players prize_pool
      (TournamentStatus.value TournamentStatus.ANNOUNCED) [] [] None
      created_by now]>);;
  match leagues s !! league_id with
  | Some _ =>
      modify (upd_leagues (alter (League.append_tournament tournament_id) league_id))
  | None => mret tt
  end;;
  save_data;;
  mret tournament_id.

Definition apply_for_tournament (tournament_id : string) : M (bool * string) :=
  s ← get;
  match tournaments s !! tournament_id with
  | None => mret (false, "Tournament not found")
  | Some tournament =>
      username ← current_username;
      if bool_decide (username ∈ Tournament.participants tournament)
      then mret (false, "Already registered for this tournament")
      else if (Z.of_nat (length (Tournament.participants tournament))
               >=? Tournament.max_players tournament)%Z
      then mret (false, "Tournament is full")
      else
        modify (upd_tournaments (alter
          (λ t, Tournament.set_status
                  (TournamentStatus.value TournamentStatus.OPEN_FOR_REGISTRATION)
                  (Tournament.append_participant username t))
          tournament_id));;
        save_data;;
        mret (true, "Application submitted successfully")
  end.

(** One turn of the loop of [start_tournament]; [now] is the clock read
    when the match is built. *)
Definition create_match (tournament_id : string) (participants : list string)
  (now : nat → string) (i match_num : nat) : M nat :=
  let match_id := tournament_id +:+ "_MATCH_" +:+ pretty match_num in
  player1 ← index participants i;
  player2 ← (if bool_decide (i + 1 < length participants)
             then index participants (i + 1) else mret "BYE");
  modify (upd_matches <[match_id :=
    Match.mk match_id tournament_id player1 player2
      (MatchStatus.value MatchStatus.SCHEDULED) None "" (now match_num) None]>);;
  modify (upd_tournaments (alter (Tournament.append_match match_id) tournament_id));;
  mret (match_num + 1).

Definition start_tournament (tournament_id : string) (now : nat → string)
  : M (bool * string) :=
  s ← get;
  match tournaments s !! tournament_id with
  | None => mret (false, "Tournament not found")
  | Some tournament =>
      if bool_decide (length (Tournament.participants tournament) < 2)
      then mret (false, "Need at least 2 participants")
      else
        modify (upd_tournaments (alter
          (Tournament.set_status (TournamentStatus.value TournamentStatus.IN_PROGRESS))
          tournament_id));;
        let participants := Tournament.participants tournament in
        for_each (range 0 (length participants - 1) 2) 1
                 (create_match tournament_id participants now);;
        save_data;;
        mret (true, "Tournament started successfully")
  end.

(** ** Match management *)

(** [self.matches.get(m, {}).get("status") == MatchStatus.COMPLETED.value] *)
Definition is_completed (ms : gmap string Match.t) (m : string) : bool :=
  match ms !! m with
  | Some mt => bool_decide (Match.status mt = MatchStatus.value MatchStatus.COMPLETED)
  | None => false
  end.

(** [sum(1 for m in l if ...)] *)
Definition completed_count (ms : gmap string Match.t) (l : list string) : nat :=
  length (List.filter (is_completed ms) l).

(** [[self.matches[m].get("winner") for m in l if self.matches[m].get("winner")]]:
    [None] and the empty string are falsy. *)
Fixpoint winners_of (ms : gmap string Match.t) (l : list string) : M (list string) :=
  match l with
  | [] => mret []
  | m :: rest =>
      match ms !! m with
      | None => raise KeyError
      | Some mt =>
          ws ← winners_of ms rest;
          match Match.winner mt with
          | Some w => if bool_decide (w ≠ "") then mret (w :: ws) else mret ws
          | None => mret ws
          end
      end
  end.

Definition record_match_result (match_id winner score now : string)
  : M (bool * string) :=
  s ← get;
  match matches s !! match_id with
  | None => mret (false, "Match not found")
  | Some mt =>
      modify (upd_matches <[match_id :=
        Match.mk (Match.match_id mt) (Match.tournament_id mt)
          (Match.player1 mt) (Match.player2 mt)
          (MatchStatus.value MatchStatus.COMPLETED) (Some winner) score
          (Match.created_date mt) (Some now)]>);;
      s1 ← get;
      match tournaments s1 !! Match.tournament_id mt with
      | None => raise KeyError
      | Some tournament =>
          let completed_matches :=
            completed_count (matches s1) (Tournament.matches tournament) in
          (if bool_decide (completed_matches = length (Tournament.matches tournament))
           then
             winners ← winners_of (matches s1) (Tournament.matches tournament);
             match winners with
             | w :: _ =>
                 modify (upd_tournaments (alter
                   (λ t, Tournament.set_status
                           (TournamentStatus.value TournamentStatus.COMPLETED)
                           (Tournament.set_winner (Some w) t))
                   (Match.tournament_id mt)))
             | [] => mret tt
             end
           else mret tt);;
          save_data;;
          mret (true, "Match result recorded")
      end
  end.

(** ** Advertisement management *)

Definition create_advertisement (title content : string) (cost : float)
  (now : string)
  : M string :=
  s ← get;
  let ad_id := "AD_" +:+ pretty (size (advertisements s) + 1) in
  advertiser ← current_username;
  modify (upd_advertisements <[ad_id :=
    Advertisement.mk ad_id title content cost advertiser now true]>);;
  save_data;;
  mret ad_id.

(** ** Runs of the system *)

(** The calls a user interface can make on an [ArenaSystem]. *)
Inductive op :=
| RegisterUser (username password name email role now : string)
| Login (username password : string)
| ApproveUser (username : string)
| CreateLeague (name game_type description now : string)
| CreateTournament (league_id name start_date : string) (max_players : Z)
    (prize_pool now : string)
| ApplyForTournament (tournament_id : string)
| StartTournament (tournament_id : string) (now : nat → string)
| RecordMatchResult (match_id winner score now : string)
| CreateAdvertisement (title content : string) (cost : float) (now : string).

(** The state a call leaves behind, whether it returned or raised. *)
Definition step (o : op) (s : ArenaSystem) : ArenaSystem :=
  match o with
  | RegisterUser u p n e r now => (register_user u p n e r now s).2
  | Login u p => (login u p s).2
  | ApproveUser u => (approve_user u s).2
  | CreateLeague n g d now => (create_league n g d now s).2
  | CreateTournament l n sd mp pp now => (create_tournament l n sd mp pp now s).2
  | ApplyForTournament t => (apply_for_tournament t s).2
  | StartTournament t now => (start_tournament t now s).2
  | RecordMatchResult m w sc now => (record_match_result m w sc now s).2
  | CreateAdvertisement t c co now => (create_advertisement t c co now s).2
  end.

Definition steps (os : list op) (s : ArenaSystem) : ArenaSystem :=
  foldl (λ s o, step o s) s os.

(** The store of a first run: no file, or a file that does not parse. *)
Definition first_run : ArenaSystem :=
  mkArena {["admin" := default_admin]} ∅ ∅ ∅ ∅ None Missing.

(** States reached from a first run by calls and by restarts of the
    process, which build a new [ArenaSystem] from the file. *)
Inductive reachable : ArenaSystem → Prop :=
| reachable_first_run f s :
    f = Missing ∨ f = Garbled → __init__ f = Some s → reachable s
| reachable_step o s :
    reachable s → reachable (step o s)
| reachable_restart s s' :
    reachable s → __init__ (data_file s) = Some s' → reachable s'.


(** ** Sample runs, used to exercise the statements below *)

Definition clock (t : string) : nat → string := λ _, t.

Definition sample_players : list op :=
  [ RegisterUser "alice" "pw1" "Alice" "alice@arena.com" "Player" "t1";
    RegisterUser "bob" "pw2" "Bob" "bob@arena.com" "Player" "t2";
    RegisterUser "carol" "pw3" "Carol" "carol@arena.com" "Player" "t3";
    ApproveUser "alice"; ApproveUser "bob"; ApproveUser "carol" ].

Definition sample_cup (max_players : Z) : list op :=
  [ Login "admin" "admin123";
    CreateLeague "Chess" "Board" "Weekly chess" "t4";
    CreateTournament "LEAGUE_1" "Cup" "2024-01-01" max_players "100" "t5" ].

Definition apply_as (username password : string) : list op :=
  [ Login username password; ApplyForTournament "TOUR_1" ].

(** A cup with a single applicant. *)
Definition cup_of_one : ArenaSystem :=
  steps (sample_players ++ sample_cup 8 ++ apply_as "alice" "pw1") first_run.

(** A cup with two applicants, and the same cup once started. *)
Definition cup_of_two : ArenaSystem :=
  steps (apply_as "bob" "pw2") cup_of_one.

Definition cup_of_two_started : ArenaSystem :=
  step (StartTournament "TOUR_1" (clock "t6")) cup_of_two.

(** A cost of 30.5. *)
Definition sample_cost : float := float_of 61 (-1).



(** A cup with three applicants. *)
Definition cup_of_three : ArenaSystem :=
  steps (apply_as "carol" "pw3") cup_of_two.

(** ** Sequences of registrations *)

Record registration := mkRegistration {
  reg_username : string;
  reg_password : string;
  reg_name : string;
  reg_email : string;
  reg_role : string;
  reg_now : string
}.

(** [register_user] called for each element in turn: the answer of each
    call, with the number of users stored after it. *)
Fixpoint register_all (rs : list registration) (s : ArenaSystem)
  : list (res (bool * string) * nat) * ArenaSystem :=
  match rs with
  | [] => ([], s)
  | r :: rest =>
      let out := register_user (reg_username r) (reg_password r) (reg_name r)
                   (reg_email r) (reg_role r) (reg_now r) s in
      let outs := register_all rest out.2 in
      ((out.1, size (users out.2)) :: outs.1, outs.2)
  end.

Definition new_user (username password name email role now : string) : User.t :=
  User.mk username password name email role
    (if bool_decide (role ≠ UserRole.value UserRole.SPECTATOR) then false else true)
    (Some now).

Definition sample_registrations : list registration :=
  [ mkRegistration "dave" "pw4" "Dave" "dave@arena.com" "Player" "t7";
    mkRegistration "erin" "pw5" "Erin" "erin@arena.com" "Spectator" "t8" ].

(** The first run once the bootstrap operator has logged in. *)
Definition admin_session : ArenaSystem :=
  step (Login "admin" "admin123") first_run.

(** ** Invariants of the store and of its file *)

(** No applicant twice, and no more applicants than a non-negative
    [max_players] allows. *)
Definition tournament_ok (t : Tournament.t) : Prop :=
  NoDup (Tournament.participants t)
  ∧ (0 ≤ Tournament.max_players t →
     Z.of_nat (length (Tournament.participants t)) ≤ Tournament.max_players t)%Z.

Definition tournaments_ok (m : gmap string Tournament.t) : Prop :=
  ∀ tid t, m !! tid = Some t → tournament_ok t.

Definition store_ok (s : ArenaSystem) : Prop :=
  is_Some (users s !! "admin") ∧ tournaments_ok (tournaments s).

(** The file, when it holds a document, holds the dump of a good store. *)
Definition file_ok (f : file) : Prop :=
  match f with
  | Document d => ∃ s0, d = dump s0 ∧ store_ok s0
  | _ => True
  end.

Definition inv (s : ArenaSystem) : Prop :=
  store_ok s ∧ file_ok (data_file s).

(** The five collections of a store. *)
Definition collections (s : ArenaSystem) :=
  (users s, leagues s, tournaments s, matches s, advertisements s).

(** A cup created with a negative number of places. *)
Definition negative_cup : ArenaSystem :=
  steps (sample_cup (-1)) first_run.

(** A store whose bootstrap account has been edited by hand. *)
Definition edited_admin : User.t :=
  User.mk "admin" "changed" "Root" "root@arena.com" "Player" false None.

Definition edited_store : ArenaSystem :=
  upd_users <["admin" := edited_admin]> cup_of_two.

(** ** Calls that approve a given user *)

Definition approves (username : string) (o : op) : bool :=
  match o with
  | ApproveUser u => bool_decide (u = username)
  | _ => false
  end.

Definition sample_other_calls : list op :=
  [ ApproveUser "alice"; Login "dave" "pw4"; Login "admin" "admin123";
    CreateLeague "Go" "Board" "Monthly go" "t8";
    CreateTournament "LEAGUE_1" "Open" "2024-02-01" 4 "50" "t9";
    RegisterUser "dave" "other" "David" "d@arena.com" "Spectator" "t10";
    StartTournament "TOUR_1" (clock "t11");
    RecordMatchResult "TOUR_1_MATCH_1" "alice" "1-0" "t12";
    CreateAdvertisement "Boards" "Buy a board" sample_cost "t13" ].

(** ** The completion rule, in the words of the specification *)

(** The record [record_match_result] stores for a match. *)
Definition completed_match (mt : Match.t) (winner score now : string) : Match.t :=
  Match.mk (Match.match_id mt) (Match.tournament_id mt)
    (Match.player1 mt) (Match.player2 mt)
    (MatchStatus.value MatchStatus.COMPLETED) (Some winner) score
    (Match.created_date mt) (Some now).

(** Every match of the list is stored and has status Completed. *)
Definition all_completed (ms : gmap string Match.t) (l : list string) : Prop :=
  ∀ m, m ∈ l →
    ∃ mt, ms !! m = Some mt
          ∧ Match.status mt = MatchStatus.value MatchStatus.COMPLETED.

(** The winner recorded on a match: a non-empty string. *)
Definition recorded_winner (mt : Match.t) : option string :=
  match Match.winner mt with
  | Some w => if bool_decide (w ≠ "") then Some w else None
  | None => None
  end.

(** The winner of the first match of the list that has a recorded winner. *)
Fixpoint first_winner (ms : gmap string Match.t) (l : list string) : option string :=
  match l with
  | [] => None
  | m :: rest =>
      match ms !! m ≫= recorded_winner with
      | Some w => Some w
      | None => first_winner ms rest
      end
  end.

(** The tournament once completed with winner [w]. *)
Definition completed_tournament (w : string) (t : Tournament.t) : Tournament.t :=
  Tournament.set_status (TournamentStatus.value TournamentStatus.COMPLETED)
    (Tournament.set_winner (Some w) t).

(** The state a successful [record_match_result] leaves behind, for the
    match [mt] stored under [match_id] and its tournament [t]. *)
Definition recorded (s : ArenaSystem) (match_id : string) (mt : Match.t)
  (t : Tournament.t) (winner score now : string) : ArenaSystem :=
  let s1 := upd_matches <[match_id := completed_match mt winner score now]> s in
  let s2 :=
    if bool_decide (completed_count (matches s1) (Tournament.matches t)
                    = length (Tournament.matches t))
    then match first_winner (matches s1) (Tournament.matches t) with
         | Some w =>
             upd_tournaments
               (alter (completed_tournament w) (Match.tournament_id mt)) s1
         | None => s1
         end
    else s1 in
  set_data_file (Document (dump s2)) s2.

(** The started cup of two, its only match recorded with an empty winner. *)
Definition cup_without_winner : ArenaSystem :=
  step (RecordMatchResult "TOUR_1_MATCH_1" "" "1-1" "t7") cup_of_two_started.

(** The started cup of two, won by alice. *)
Definition cup_won_by_alice : ArenaSystem :=
  step (RecordMatchResult "TOUR_1_MATCH_1" "alice" "2-0" "t7") cup_of_two_started.

(** ** The bracket, in the words of the specification *)

(** The participants taken two at a time, in order; a participant left
    alone at the end is in no pair. *)
Fixpoint pair_up (ps : list string) : list (string * string) :=
  match ps with
  | a :: b :: rest => (a, b) :: pair_up rest
  | _ => []
  end.

Definition match_id_of (tournament_id : string) (n : nat) : string :=
  tournament_id +:+ "_MATCH_" +:+ pretty n.

Definition scheduled_match (tournament_id : string) (now : nat → string)
  (n : nat) (p : string * string) : Match.t :=
  Match.mk (match_id_of tournament_id n) tournament_id p.1 p.2
    (MatchStatus.value MatchStatus.SCHEDULED) None "" (now n) None.

(** The matches numbered from [n] for the given pairs, written in turn. *)
Fixpoint scheduled_matches (tournament_id : string) (now : nat → string)
  (n : nat) (pairs : list (string * string)) (ms : gmap string Match.t)
  : gmap string Match.t :=
  match pairs with
  | [] => ms
  | p :: rest =>
      scheduled_matches tournament_id now (S n) rest
        (<[match_id_of tournament_id n := scheduled_match tournament_id now n p]> ms)
  end.

(** The state after one match per pair has been stored and listed. *)
Fixpoint schedule (tournament_id : string) (now : nat → string)
  (n : nat) (pairs : list (string * string)) (s : ArenaSystem) : ArenaSystem :=
  match pairs with
  | [] => s
  | p :: rest =>
      schedule tournament_id now (S n) rest
        (upd_tournaments
           (alter (Tournament.append_match (match_id_of tournament_id n)) tournament_id)
           (upd_matches
              <[match_id_of tournament_id n := scheduled_match tournament_id now n p]> s))
  end.

Definition append_matches (ids : list string) (x : Tournament.t) : Tournament.t :=
  Tournament.mk (Tournament.tournament_id x) (Tournament.league_id x)
    (Tournament.name x) (Tournament.start_date x) (Tournament.max_players x)
    (Tournament.prize_pool x) (Tournament.status x) (Tournament.participants x)
    (Tournament.matches x ++ ids) (Tournament.winner x)
    (Tournament.created_by x) (Tournament.created_date x).

(** A cup with four applicants. *)
Definition cup_of_four : ArenaSystem :=
  steps ([ RegisterUser "dave" "pw4" "Dave" "dave@arena.com" "Player" "t7";
           ApproveUser "dave" ] ++ apply_as "dave" "pw4") cup_of_three.

(** ** What a call does to the store *)

(** The store once [save_data] has run. *)
Definition saved (s : ArenaSystem) : ArenaSystem :=
  set_data_file (Document (dump s)) s.

Definition fault_of {A} (r : res A) : option exn :=
  match r with
  | Ok _ => None
  | Raise e => Some e
  end.

(** The exception a call ends with, if it raises. *)
Definition fault (o : op) (s : ArenaSystem) : option exn :=
  match o with
  | RegisterUser u p n e r now => fault_of (register_user u p n e r now s).1
  | Login u p => fault_of (login u p s).1
  | ApproveUser u => fault_of (approve_user u s).1
  | CreateLeague n g d now => fault_of (create_league n g d now s).1
  | CreateTournament l n sd mp pp now =>
      fault_of (create_tournament l n sd mp pp now s).1
  | ApplyForTournament t => fault_of (apply_for_tournament t s).1
  | StartTournament t now => fault_of (start_tournament t now s).1
  | RecordMatchResult m w sc now => fault_of (record_match_result m w sc now s).1
  | CreateAdvertisement t c co now => fault_of (create_advertisement t c co now s).1
  end.

Definition next_league_id (s : ArenaSystem) : string :=
  "LEAGUE_" +:+ pretty (size (leagues s) + 1).

Definition next_tournament_id (s : ArenaSystem) : string :=
  "TOUR_" +:+ pretty (size (tournaments s) + 1).

Definition next_ad_id (s : ArenaSystem) : string :=
  "AD_" +:+ pretty (size (advertisements s) + 1).

Definition new_tournament (tournament_id league_id name start_date : string)
  (max_players : Z) (prize_pool created_by now : string) : Tournament.t :=
  Tournament.mk tournament_id league_id name start_date max_players prize_pool
    (TournamentStatus.value TournamentStatus.ANNOUNCED) [] [] None created_by now.

(** The store [create_tournament] saves. *)
Definition with_tournament (s : ArenaSystem) (league_id name start_date : string)
  (max_players : Z) (prize_pool created_by now : string) : ArenaSystem :=
  let tournament_id := next_tournament_id s in
  let s1 := upd_tournaments <[tournament_id :=
              new_tournament tournament_id league_id name start_date max_players
                             prize_pool created_by now]> s in
  match leagues s !! league_id with
  | Some _ =>
      upd_leagues (alter (League.append_tournament tournament_id) league_id) s1
  | None => s1
  end.

Definition joined (username : string) (t : Tournament.t) : Tournament.t :=
  Tournament.set_status
    (TournamentStatus.value TournamentStatus.OPEN_FOR_REGISTRATION)
    (Tournament.append_participant username t).

(** The store [record_match_result] saves. *)
Definition with_result (s : ArenaSystem) (match_id : string) (mt : Match.t)
  (t : Tournament.t) (winner score now : string) : ArenaSystem :=
  let s1 := upd_matches <[match_id := completed_match mt winner score now]> s in
  if bool_decide (completed_count (matches s1) (Tournament.matches t)
                  = length (Tournament.matches t))
  then match first_winner (matches s1) (Tournament.matches t) with
       | Some w =>
           upd_tournaments
             (alter (completed_tournament w) (Match.tournament_id mt)) s1
       | None => s1
       end
  else s1.

(** The changes a call makes before it saves, each with the conditions
    under which the code reaches it. *)
Inductive mutation : op → ArenaSystem → ArenaSystem → Prop :=
| mut_register s u p n e r now :
    users s !! u = None →
    mutation (RegisterUser u p n e r now) s
             (upd_users <[u := new_user u p n e r now]> s)
| mut_approve s u usr :
    users s !! u = Some usr →
    mutation (ApproveUser u) s
             (upd_users (alter (User.set_approved true) u) s)
| mut_league s k usr n g d now :
    current_user s = Some k → users s !! k = Some usr →
    mutation (CreateLeague n g d now) s
             (upd_leagues <[next_league_id s :=
                League.mk (next_league_id s) n g d (User.username usr) now []]> s)
| mut_tournament s k usr l n sd mp pp now :
    current_user s = Some k → users s !! k = Some usr →
    mutation (CreateTournament l n sd mp pp now) s
             (with_tournament s l n sd mp pp (User.username usr) now)
| mut_apply s k usr tid t :
    tournaments s !! tid = Some t →
    current_user s = Some k → users s !! k = Some usr →
    User.username usr ∉ Tournament.participants t →
    (Z.of_nat (length (Tournament.participants t)) < Tournament.max_players t)%Z →
    mutation (ApplyForTournament tid) s
             (upd_tournaments (alter (joined (User.username usr)) tid) s)
| mut_start s tid t now :
    tournaments s !! tid = Some t →
    (2 ≤ length (Tournament.participants t))%nat →
    mutation (StartTournament tid now) s
             (schedule tid now 1 (pair_up (Tournament.participants t))
                (upd_tournaments
                   (alter (Tournament.set_status
                             (TournamentStatus.value TournamentStatus.IN_PROGRESS))
                          tid) s))
| mut_record s mid mt t w sc now :
    matches s !! mid = Some mt →
    tournaments s !! Match.tournament_id mt = Some t →
    mutation (RecordMatchResult mid w sc now) s (with_result s mid mt t w sc now)
| mut_ad s k usr t c co now :
    current_user s = Some k → users s !! k = Some usr →
    mutation (CreateAdvertisement t c co now) s
             (upd_advertisements <[next_ad_id s :=
                Advertisement.mk (next_ad_id s) t c co (User.username usr) now true]> s).

(** Calls that read [self.current_user]. *)
Definition needs_user (o : op) : bool :=
  match o with
  | CreateLeague _ _ _ _ | CreateTournament _ _ _ _ _ _
  | ApplyForTournament _ | CreateAdvertisement _ _ _ _ => true
  | _ => false
  end.

(** The ways a call can end: the exception raised, if any, and the store
    left behind. *)
Inductive behaves (o : op) (s : ArenaSystem) : option exn → ArenaSystem → Prop :=
| behaves_refused :
    behaves o s None s
| behaves_login u p usr :
    o = Login u p → users s !! u = Some usr →
    User.password usr = p → User.approved usr = true →
    behaves o s None (set_current_user (Some u) s)
| behaves_saved s1 :
    mutation o s s1 →
    behaves o s None (saved s1)
| behaves_no_user :
    needs_user o = true → current_user s = None →
    behaves o s (Some TypeError) s
| behaves_lost_user k :
    needs_user o = true → current_user s = Some k → users s !! k = None →
    behaves o s (Some KeyError) s
| behaves_unknown_user u :
    o = ApproveUser u → users s !! u = None →
    behaves o s (Some KeyError) s
| behaves_lost_tournament mid w sc now mt :
    o = RecordMatchResult mid w sc now →
    matches s !! mid = Some mt →
    tournaments s !! Match.tournament_id mt = None →
    behaves o s (Some KeyError)
            (upd_matches <[mid := completed_match mt w sc now]> s).

(** ** Match ids *)

Fixpoint no_underscore (s : string) : Prop :=
  match s with
  | EmptyString => True
  | String c r => c ≠ "_"%char ∧ no_underscore r
  end.

(** ** Well-formed stores *)

(** Every account is stored under its own username. *)
Definition user_keys (s : ArenaSystem) : Prop :=
  ∀ k u, users s !! k = Some u → User.username u = k.

(** The current user, if any, is a stored and approved account. *)
Definition session_ok (s : ArenaSystem) : Prop :=
  ∀ k, current_user s = Some k →
    ∃ u, users s !! k = Some u ∧ User.approved u = true.

(** The keys of a collection are [prefix1], ..., [prefixn] for its size [n]. *)
Definition numbered {A} (prefix : string) (m : gmap string A) : Prop :=
  ∀ k, is_Some (m !! k) ↔ ∃ i, (1 ≤ i ≤ size m)%nat ∧ k = prefix +:+ pretty i.

Definition ids_ok (s : ArenaSystem) : Prop :=
  numbered "LEAGUE_" (leagues s)
  ∧ numbered "TOUR_" (tournaments s)
  ∧ numbered "AD_" (advertisements s).

(** A match is Scheduled with no result, or Completed with a winner and a
    completion date. *)
Definition match_state_ok (m : Match.t) : Prop :=
  (Match.status m = MatchStatus.value MatchStatus.SCHEDULED
   ∧ Match.winner m = None ∧ Match.completed_date m = None)
  ∨ (Match.status m = MatchStatus.value MatchStatus.COMPLETED
     ∧ is_Some (Match.winner m) ∧ is_Some (Match.completed_date m)).

(** A stored match carries its key, is numbered within its tournament,
    which exists, and opposes two participants of that tournament. *)
Definition match_ok (s : ArenaSystem) (mid : string) (m : Match.t) : Prop :=
  Match.match_id m = mid
  ∧ (∃ n, mid = match_id_of (Match.tournament_id m) n)
  ∧ (∃ t, tournaments s !! Match.tournament_id m = Some t
          ∧ Match.player1 m ∈ Tournament.participants t
          ∧ Match.player2 m ∈ Tournament.participants t)
  ∧ match_state_ok m.

Definition matches_ok (s : ArenaSystem) : Prop :=
  ∀ mid m, matches s !! mid = Some m → match_ok s mid m.

Definition tournament_statuses : list string :=
  [ TournamentStatus.value TournamentStatus.ANNOUNCED;
    TournamentStatus.value TournamentStatus.OPEN_FOR_REGISTRATION;
    TournamentStatus.value TournamentStatus.IN_PROGRESS;
    TournamentStatus.value TournamentStatus.COMPLETED ].

(** A stored tournament carries its key, has one of four statuses, a
    non-empty winner if any and some winner when Completed; its creator and
    participants are accounts, and the matches it lists are stored matches
    of its own. *)
Definition tournament_wf (s : ArenaSystem) (tid : string) (t : Tournament.t) : Prop :=
  Tournament.tournament_id t = tid
  ∧ Tournament.status t ∈ tournament_statuses
  ∧ (∀ w, Tournament.winner t = Some w → w ≠ "")
  ∧ (Tournament.status t = TournamentStatus.value TournamentStatus.COMPLETED →
     is_Some (Tournament.winner t))
  ∧ is_Some (users s !! Tournament.created_by t)
  ∧ (∀ p, p ∈ Tournament.participants t → is_Some (users s !! p))
  ∧ (∀ m, m ∈ Tournament.matches t →
       ∃ mt, matches s !! m = Some mt ∧ Match.tournament_id mt = tid).

Definition tournaments_wf (s : ArenaSystem) : Prop :=
  ∀ tid t, tournaments s !! tid = Some t → tournament_wf s tid t.

(** A stored league carries its key, is owned by an account, and lists,
    each once, stored tournaments that name it as their league. *)
Definition league_ok (s : ArenaSystem) (lid : string) (l : League.t) : Prop :=
  League.league_id l = lid
  ∧ is_Some (users s !! League.owner l)
  ∧ NoDup (League.tournaments l)
  ∧ (∀ tid, tid ∈ League.tournaments l →
       ∃ t, tournaments s !! tid = Some t ∧ Tournament.league_id t = lid).

Definition leagues_ok (s : ArenaSystem) : Prop :=
  ∀ lid l, leagues s !! lid = Some l → league_ok s lid l.

(** A stored advertisement carries its key, is active, and belongs to an
    account. *)
Definition ads_ok (s : ArenaSystem) : Prop :=
  ∀ aid a, advertisements s !! aid = Some a →
    Advertisement.ad_id a = aid
    ∧ Advertisement.active a = true
    ∧ is_Some (users s !! Advertisement.advertiser a).

(** The file holds the dump of the store; as long as there is no document
    the store is the one of a first run. *)
Definition file_sync (s : ArenaSystem) : Prop :=
  match data_file s with
  | Document d => d = dump s
  | _ => users s = {["admin" := default_admin]} ∧ leagues s = ∅
         ∧ tournaments s = ∅ ∧ matches s = ∅ ∧ advertisements s = ∅
  end.

Record wf (s : ArenaSystem) : Prop := mk_wf {
  wf_user_keys : user_keys s;
  wf_session : session_ok s;
  wf_ids : ids_ok s;
  wf_matches : matches_ok s;
  wf_tournaments : tournaments_wf s;
  wf_leagues : leagues_ok s;
  wf_ads : ads_ok s
}.

(** A store that is well-formed and in step with its file. *)
Definition sound (s : ArenaSystem) : Prop := wf s ∧ file_sync s.

(** The cup won by alice, with carol applying afterwards. *)
Definition cup_reopened : ArenaSystem :=
  steps (apply_as "carol" "pw3") cup_won_by_alice.

(** The cup won by alice, started a second time. *)
Definition cup_restarted : ArenaSystem :=
  step (StartTournament "TOUR_1" (clock "t9")) cup_won_by_alice.

(** ** Listings of a dict (arena_tournament_system.py) *)

(** The GUI reads a collection with [d.items()] or [d.values()], which
    enumerate it in the order of insertion. The store does not keep that
    order: a listing of a dict is any list of its entries, each once, and
    the loops of the GUI take the listing they run over as an argument. *)
Definition listing {A} (m : gmap string A) (items : list (string * A)) : Prop :=
  items ≡ₚ map_to_list m.

(** ** The spectator's player statistics *)

Module PlayerStats.
Record t := mk {
  wins : nat;
  matches : nat
}.
Definition add_match (st : t) : t := mk (wins st) (matches st + 1).
Definition add_win (st : t) : t := mk (wins st + 1) (matches st).
End PlayerStats.

(** The body of the inner loop, for one of the two players of a match;
    [player_stats[player]] cannot fail, the entry was just made. *)
Definition count_player (m : Match.t) (player_stats : gmap string PlayerStats.t)
  (player : string) : gmap string PlayerStats.t :=
  let player_stats :=
    if bool_decide (player ≠ "BYE") && bool_decide (player_stats !! player = None)
    then <[player := PlayerStats.mk 0 0]> player_stats
    else player_stats in
  if bool_decide (player ≠ "BYE")
  then
    let player_stats := alter PlayerStats.add_match player player_stats in
    if bool_decide (Match.winner m = Some player)
    then alter PlayerStats.add_win player player_stats
    else player_stats
  else player_stats.

(** The two loops, over the matches in the order they are given. *)
Definition count_matches (ms : list Match.t) : gmap string PlayerStats.t :=
  foldl (λ player_stats m,
           foldl (count_player m) player_stats [Match.player1 m; Match.player2 m])
        ∅ ms.

(** [for match in self.system.matches.values()] *)
Definition player_stats (items : list (string * Match.t))
  : gmap string PlayerStats.t :=
  count_matches items.*2.

(** The places [p] takes in a match, and in a list of matches. *)
Definition places (p : string) (m : Match.t) : nat :=
  (if bool_decide (Match.player1 m = p) then 1 else 0)
  + (if bool_decide (Match.player2 m = p) then 1 else 0).

Definition appearances (p : string) (ms : list Match.t) : nat :=
  sum_list (places p <$> ms).

Definition victories (p : string) (ms : list Match.t) : nat :=
  sum_list ((λ m, if bool_decide (Match.winner m = Some p) then places p m else 0)
              <$> ms).

(** An entry with [dw] more wins over [dn] more matches. *)
Definition add_counts (o : option PlayerStats.t) (dw dn : nat) : option PlayerStats.t :=
  if bool_decide (dn = 0%nat) then o
  else Some (PlayerStats.mk (from_option PlayerStats.wins 0%nat o + dw)
                            (from_option PlayerStats.matches 0%nat o + dn)).

(** The one match of the cup won by alice. *)
Definition sample_results : list (string * Match.t) :=
  map_to_list (matches cup_won_by_alice).

(** ** The player's list of tournaments to apply for *)

(** The values of a row: the key of the tournament, its name, the name of
    its league, its status and the spots left. *)
Definition tournament_row : Type := string * string * string * string * string.

(** [item["values"][0]] *)
Definition row_id (row : tournament_row) : string := row.1.1.1.1.

(** One turn of the loop that fills the list. *)
Definition browse_row (s : ArenaSystem) (username : string)
  (item : string * Tournament.t) : option tournament_row :=
  let '(tour_id, tournament) := item in
  if bool_decide (Tournament.status tournament
                  ∈ [TournamentStatus.value TournamentStatus.ANNOUNCED;
                     TournamentStatus.value TournamentStatus.OPEN_FOR_REGISTRATION])
  then
    let league_name :=
      from_option League.name "N/A" (leagues s !! Tournament.league_id tournament) in
    let available :=
      (Tournament.max_players tournament
       - Z.of_nat (length (Tournament.participants tournament)))%Z in
    let is_registered :=
      bool_decide (username ∈ Tournament.participants tournament) in
    if negb is_registered
    then Some (tour_id, Tournament.name tournament, league_name,
               Tournament.status tournament, pretty available +:+ " spots left")
    else None
  else None.

Definition browse_tournaments (items : list (string * Tournament.t))
  : M (list tournament_row) :=
  username ← current_username;
  s ← get;
  mret (omap (browse_row s username) items).

(** The button under the list: apply for the selected row. *)
Definition apply_to_tournament (row : tournament_row) : M (bool * string) :=
  apply_for_tournament (row_id row).

(** The cup of two, seen by carol. *)
Definition carol_browsing : ArenaSystem :=
  step (Login "carol" "pw3") cup_of_two.

(** ** The spectator's lists of matches and tournaments *)

(** One turn of the loop that fills the Live Matches list. *)
Definition live_row (s : ArenaSystem) (item : string * Match.t)
  : option (string * string * string * string * string) :=
  let '(match_id, m) := item in
  if bool_decide (Match.status m = MatchStatus.value MatchStatus.LIVE)
  then
    let tournament :=
      from_option Tournament.name "N/A" (tournaments s !! Match.tournament_id m) in
    Some (match_id, tournament, Match.player1 m, Match.player2 m, Match.status m)
  else None.

Definition live_matches (s : ArenaSystem) (items : list (string * Match.t))
  : list (string * string * string * string * string) :=
  omap (live_row s) items.

(** One turn of the loop that fills the Tournament History list; the winner
    is shown as stored, [None] included. *)
Definition history_row (s : ArenaSystem) (item : string * Tournament.t)
  : option (string * string * string * option string * string) :=
  let '(tour_id, tournament) := item in
  if bool_decide (Tournament.status tournament
                  ∈ [TournamentStatus.value TournamentStatus.COMPLETED;
                     TournamentStatus.value TournamentStatus.ARCHIVED])
  then
    let league_name :=
      from_option League.name "N/A" (leagues s !! Tournament.league_id tournament) in
    let winner := Tournament.winner tournament in
    Some (tour_id, Tournament.name tournament, league_name, winner,
          Tournament.status tournament)
  else None.

Definition tournament_history (s : ArenaSystem)
  (items : list (string * Tournament.t))
  : list (string * string * string * option string * string) :=
  omap (history_row s) items.

(** ** The player's own tournaments and matches *)

(** One turn of the loop that fills the My Tournaments list. *)
Definition my_tournament_row (username : string) (item : string * Tournament.t)
  : option (string * string * string) :=
  let '(tour_id, tournament) := item in
  if bool_decide (username ∈ Tournament.participants tournament)
  then Some (tour_id, Tournament.name tournament, Tournament.status tournament)
  else None.

Definition my_tournaments (username : string)
  (items : list (string * Tournament.t)) : list (string * string * string) :=
  omap (my_tournament_row username) items.

(** One turn of the loop that fills the My Matches list; the result is the
    winner as stored, [None] included. *)
Definition my_match_row (s : ArenaSystem) (username : string)
  (item : string * Match.t)
  : option (string * string * string * string * option string) :=
  let '(match_id, m) := item in
  if bool_decide (Match.player1 m = username)
     || bool_decide (Match.player2 m = username)
  then
    let opponent :=
      if bool_decide (Match.player1 m = username)
      then Match.player2 m else Match.player1 m in
    let tournament :=
      from_option Tournament.name "N/A" (tournaments s !! Match.tournament_id m) in
    let result := Match.winner m in
    Some (match_id, tournament, opponent, Match.status m, result)
  else None.

Definition my_matches (s : ArenaSystem) (username : string)
  (items : list (string * Match.t))
  : list (string * string * string * string * option string) :=
  omap (my_match_row s username) items.
(** ** Proof support *)

Local Open Scope list_scope.
Local Open Scope nat_scope.

Ltac unfold_M :=
  cbv [mbind M_bind mret M_ret get modify raise save_data current_username index].


Lemma current_username_none s :
  current_user s = None → current_username s = (Raise TypeError, s).
Proof. intros H. unfold_M. by rewrite H. Qed.

Lemma current_username_some s k u :
  current_user s = Some k → users s !! k = Some u →
  current_username s = (Ok (User.username u), s).
Proof. intros H1 H2. unfold_M. by rewrite H1, H2. Qed.

Lemma first_run_init : __init__ Missing = Some first_run.
Proof. reflexivity. Qed.

Lemma first_run_reachable : reachable first_run.
Proof. apply (reachable_first_run Missing); [by left | reflexivity]. Qed.

Lemma steps_reachable os s : reachable s → reachable (steps os s).
Proof.
  revert s. induction os as [|o os IH]; intros s Hs; [done|].
  apply IH. by apply reachable_step.
Qed.

(** ** Starting a tournament with too few participants *)

(** C7: for a tournament with fewer than two participants (none or one),
    [start_tournament] answers [(False, "Need at least 2 participants")]
    and changes nothing: the whole state, hence the tournament's status and
    match list and the match collection, is the one it was called in. *)
Theorem start_tournament_too_few s tournament_id tournament now :
  tournaments s !! tournament_id = Some tournament →
  length (Tournament.participants tournament) < 2 →
  start_tournament tournament_id now s
  = (Ok (false, "Need at least 2 participants"), s).
Proof.
  intros Hlook Hlen. unfold start_tournament. unfold_M.
  rewrite Hlook. by rewrite bool_decide_eq_true_2.
Qed.

Lemma start_tournament_too_few_witness :
  start_tournament "TOUR_1" (clock "t6") cup_of_one
  = (Ok (false, "Need at least 2 participants"), cup_of_one).
Proof.
  eapply start_tournament_too_few; [vm_compute; reflexivity | vm_compute; lia].
Defined.

(** ** Registration *)

Lemma register_user_fresh s u p n e r now :
  users s !! u = None →
  register_user u p n e r now s
  = (Ok (true, "Registration successful. Account pending approval."),
     let s1 := upd_users <[u := new_user u p n e r now]> s in
     set_data_file (Document (dump s1)) s1).
Proof. intros H. unfold register_user. unfold_M. by rewrite H. Qed.

Lemma register_user_taken s u p n e r now :
  is_Some (users s !! u) →
  register_user u p n e r now s = (Ok (false, "Username already exists"), s).
Proof. intros [x H]. unfold register_user. unfold_M. by rewrite H. Qed.

Lemma register_all_fresh rs : ∀ s,
  NoDup (reg_username <$> rs) →
  (∀ r, r ∈ rs → users s !! reg_username r = None) →
  (register_all rs s).1
  = imap (λ i _, (Ok (true, "Registration successful. Account pending approval."),
                  size (users s) + S i)) rs.
Proof.
  induction rs as [|r rs IH]; intros s Hnd Hfresh; [done|].
  rewrite fmap_cons in Hnd. apply NoDup_cons in Hnd as [Hnotin Hnd].
  assert (Hr : users s !! reg_username r = None) by (apply Hfresh; left).
  cbn [register_all imap]. rewrite register_user_fresh by done.
  cbv zeta. cbn [fst snd].
  set (s1 := upd_users _ s).
  assert (Hsize : size (users (set_data_file (Document (dump s1)) s1))
                  = S (size (users s))).
  { cbn. by apply map_size_insert_None. }
  rewrite Hsize. f_equal; [f_equal; lia|].
  rewrite IH; [| done |].
  - apply imap_ext. intros i x _. cbn [compose]. rewrite Hsize. f_equal. lia.
  - intros r' Hr'. cbn. rewrite lookup_insert_ne.
    + apply Hfresh. by right.
    + intros Heq. apply Hnotin. rewrite Heq. apply list_elem_of_fmap. eauto.
Qed.

(** C5: a sequence of [register_user] calls whose usernames are pairwise
    distinct and not yet stored succeeds at every call, and the number of
    users grows by exactly one per call; a call with a username that is
    already stored answers [(False, "Username already exists")] and leaves
    the whole state as it was. *)
Theorem register_user_distinct_then_duplicate
  (rs : list registration) (s : ArenaSystem)
  (s' : ArenaSystem) (u p n e r now : string) :
  NoDup (reg_username <$> rs) →
  (∀ x, x ∈ rs → users s !! reg_username x = None) →
  is_Some (users s' !! u) →
  (register_all rs s).1
  = imap (λ i _, (Ok (true, "Registration successful. Account pending approval."),
                  size (users s) + S i)) rs
  ∧ register_user u p n e r now s' = (Ok (false, "Username already exists"), s').
Proof.
  intros Hnd Hfresh Hdup. split.
  - by apply register_all_fresh.
  - by apply register_user_taken.
Qed.

Lemma register_user_distinct_then_duplicate_witness :
  (register_all sample_registrations first_run).1
  = [ (Ok (true, "Registration successful. Account pending approval."), 2);
      (Ok (true, "Registration successful. Account pending approval."), 3) ]
  ∧ register_user "admin" "x" "Mallory" "m@arena.com" "Operator" "t9" first_run
    = (Ok (false, "Username already exists"), first_run).
Proof.
  apply (register_user_distinct_then_duplicate sample_registrations first_run
           first_run "admin" "x" "Mallory" "m@arena.com" "Operator" "t9").
  - apply (bool_decide_unpack _). vm_compute. reflexivity.
  - intros x Hx. vm_compute in Hx.
    apply elem_of_cons in Hx as [->|Hx]; [reflexivity|].
    apply elem_of_cons in Hx as [->|Hx]; [reflexivity|].
    by apply elem_of_nil in Hx.
  - vm_compute. eauto.
Defined.

(** ** Operations that stamp the current user *)

Lemma create_league_no_user s name game_type description now :
  current_user s = None →
  create_league name game_type description now s = (Raise TypeError, s).
Proof. intros H. unfold create_league. unfold_M. by rewrite H. Qed.

Lemma create_tournament_no_user s league_id name start_date max_players prize_pool now :
  current_user s = None →
  create_tournament league_id name start_date max_players prize_pool now s
  = (Raise TypeError, s).
Proof. intros H. unfold create_tournament. unfold_M. by rewrite H. Qed.

Lemma create_advertisement_no_user s title content cost now :
  current_user s = None →
  create_advertisement title content cost now s = (Raise TypeError, s).
Proof. intros H. unfold create_advertisement. unfold_M. by rewrite H. Qed.

Lemma create_league_as s k u name game_type description now :
  current_user s = Some k → users s !! k = Some u →
  create_league name game_type description now s
  = (let league_id := "LEAGUE_" +:+ pretty (size (leagues s) + 1) in
     let s1 := upd_leagues <[league_id :=
                 League.mk league_id name game_type description
                           (User.username u) now []]> s in
     (Ok league_id, set_data_file (Document (dump s1)) s1)).
Proof. intros H1 H2. unfold create_league. unfold_M. by rewrite H1, H2. Qed.

Lemma create_advertisement_as s k u title content cost now :
  current_user s = Some k → users s !! k = Some u →
  create_advertisement title content cost now s
  = (let ad_id := "AD_" +:+ pretty (size (advertisements s) + 1) in
     let s1 := upd_advertisements <[ad_id :=
                 Advertisement.mk ad_id title content cost
                                  (User.username u) now true]> s in
     (Ok ad_id, set_data_file (Document (dump s1)) s1)).
Proof. intros H1 H2. unfold create_advertisement. unfold_M. by rewrite H1, H2. Qed.

Lemma create_tournament_as s k u league_id name start_date max_players prize_pool now :
  current_user s = Some k → users s !! k = Some u →
  create_tournament league_id name start_date max_players prize_pool now s
  = (let tournament_id := "TOUR_" +:+ pretty (size (tournaments s) + 1) in
     let s1 := upd_tournaments <[tournament_id :=
                 Tournament.mk tournament_id league_id name start_date max_players
                   prize_pool (TournamentStatus.value TournamentStatus.ANNOUNCED)
                   [] [] None (User.username u) now]> s in
     let s2 := match leagues s !! league_id with
               | Some _ => upd_leagues
                             (alter (League.append_tournament tournament_id) league_id) s1
               | None => s1
               end in
     (Ok tournament_id, set_data_file (Document (dump s2)) s2)).
Proof.
  intros H1 H2. unfold create_tournament. unfold_M. rewrite H1, H2.
  by destruct (leagues s !! league_id).
Qed.

(** C2, as the code has it: [create_league], [create_tournament] and
    [create_advertisement] do not check that a user is logged in. Called
    with no current user they raise [TypeError], an uncaught fault and not
    an error result, before anything is stored: the state and the file are
    left as they were. Called with a current user they return the new id
    and stamp the record with that user's username. *)
Theorem create_without_current_user_raises
  (s : ArenaSystem) (name game_type description league_id start_date : string)
  (max_players : Z) (prize_pool title content : string) (cost : float) (now : string)
  (s' : ArenaSystem) (k : string) (u : User.t) :
  current_user s = None →
  current_user s' = Some k → users s' !! k = Some u →
  (create_league name game_type description now s = (Raise TypeError, s)
   ∧ create_tournament league_id name start_date max_players prize_pool now s
     = (Raise TypeError, s)
   ∧ create_advertisement title content cost now s = (Raise TypeError, s))
  ∧ (∃ i t, create_league name game_type description now s' = (Ok i, t)
            ∧ League.owner <$> leagues t !! i = Some (User.username u))
  ∧ (∃ i t, create_tournament league_id name start_date max_players prize_pool now s'
            = (Ok i, t)
            ∧ Tournament.created_by <$> tournaments t !! i = Some (User.username u))
  ∧ (∃ i t, create_advertisement title content cost now s' = (Ok i, t)
            ∧ Advertisement.advertiser <$> advertisements t !! i
              = Some (User.username u)).
Proof.
  intros Hnone Hk Hu. split; [|split; [|split]].
  - split; [|split].
    + by apply create_league_no_user.
    + by apply create_tournament_no_user.
    + by apply create_advertisement_no_user.
  - eexists _, _. split; [by eapply create_league_as|].
    cbn. by rewrite lookup_insert_eq.
  - eexists _, _. split; [by eapply create_tournament_as|].
    cbv zeta. destruct (leagues s' !! league_id); cbn; by rewrite lookup_insert_eq.
  - eexists _, _. split; [by eapply create_advertisement_as|].
    cbn. by rewrite lookup_insert_eq.
Qed.

(** C2, as stated, fails on a first run, where nobody has logged in:
    [create_league] does not return, it raises. *)
Lemma create_league_first_run_raises :
  current_user first_run = None
  ∧ create_league "Chess" "Board" "Weekly chess" "t4" first_run
    = (Raise TypeError, first_run)
  ∧ ¬ ∃ v t, create_league "Chess" "Board" "Weekly chess" "t4" first_run = (Ok v, t).
Proof.
  split; [reflexivity|]. split; [reflexivity|].
  intros (v & t & H). vm_compute in H. discriminate H.
Qed.

Lemma create_without_current_user_raises_witness :
  create_league "Chess" "Board" "Weekly chess" "t4" first_run
  = (Raise TypeError, first_run)
  ∧ ∃ i t, create_league "Chess" "Board" "Weekly chess" "t4" admin_session = (Ok i, t)
           ∧ League.owner <$> leagues t !! i = Some "admin".
Proof.
  pose proof (create_without_current_user_raises first_run
                "Chess" "Board" "Weekly chess" "LEAGUE_1" "2024-01-01" 8 "100"
                "Ad" "Buy now" sample_cost "t4" admin_session "admin" default_admin
                eq_refl eq_refl eq_refl) as [[H _] [H' _]].
  split; [exact H | exact H'].
Defined.

(** ** Persistence: what is saved is what is loaded *)

Lemma str_list_roundtrip l : mapM as_str (JStr <$> l) = Some l.
Proof. by apply mapM_fmap_Some. Qed.

Lemma User_roundtrip u : User.of_json (User.to_json u) = Some u.
Proof. destruct u as [? ? ? ? ? ? [d|]]; reflexivity. Qed.

Lemma League_roundtrip l : League.of_json (League.to_json l) = Some l.
Proof. destruct l. cbn. by rewrite str_list_roundtrip. Qed.

Lemma Tournament_roundtrip t : Tournament.of_json (Tournament.to_json t) = Some t.
Proof.
  destruct t as [? ? ? ? ? ? ? ? ? [w|] ? ?]; cbn;
    by rewrite !str_list_roundtrip.
Qed.

Lemma Match_roundtrip m : Match.of_json (Match.to_json m) = Some m.
Proof. destruct m as [? ? ? ? ? [w|] ? ? [d|]]; reflexivity. Qed.

Lemma Advertisement_roundtrip a :
  Advertisement.of_json (Advertisement.to_json a) = Some a.
Proof. by destruct a. Qed.

Lemma collection_roundtrip {A} (to_json : A → json) (of_json : json → option A)
  (m : gmap string A) :
  (∀ x, of_json (to_json x) = Some x) →
  load_collection of_json (dump_collection to_json m) = Some m.
Proof.
  intros Hrt. unfold load_collection, dump_collection.
  rewrite mapM_fmap_Some.
  - cbn. by rewrite list_to_map_to_list.
  - intros [k x]. unfold load_entry. cbn. by rewrite Hrt.
Qed.

Lemma load_data_dump s0 us ls ts ms ads cu :
  load_data (mkArena us ls ts ms ads cu (Document (dump s0)))
  = Some (mkArena (users s0) (leagues s0) (tournaments s0) (matches s0)
                  (advertisements s0) cu (Document (dump s0))).
Proof.
  unfold load_data.
  cbn [data_file current_user dump jget String.eqb Ascii.eqb Bool.eqb
       default from_option id].
  rewrite (collection_roundtrip _ _ _ User_roundtrip).
  rewrite (collection_roundtrip _ _ _ League_roundtrip).
  rewrite (collection_roundtrip _ _ _ Tournament_roundtrip).
  rewrite (collection_roundtrip _ _ _ Match_roundtrip).
  rewrite (collection_roundtrip _ _ _ Advertisement_roundtrip).
  reflexivity.
Qed.

(** A restart from the dump of a store that has an ["admin"] entry. *)
Lemma init_dump s0 :
  is_Some (users s0 !! "admin") →
  __init__ (Document (dump s0))
  = Some (mkArena (users s0) (leagues s0) (tournaments s0) (matches s0)
                  (advertisements s0) None (Document (dump s0))).
Proof.
  intros [a Ha]. unfold __init__. rewrite load_data_dump. cbn. by rewrite Ha.
Qed.

Lemma init_no_document f :
  f = Missing ∨ f = Garbled ∨ f = Document (JDict []) →
  __init__ f = Some (mkArena {["admin" := default_admin]} ∅ ∅ ∅ ∅ None f).
Proof. intros [->|[->| ->]]; reflexivity. Qed.

(** C9: on a first run (no file, a file that does not parse, or an empty
    document) the store holds exactly one user, ["admin"], with the fixed
    password, the Operator role and [approved = True], and nothing else;
    on a start from a saved document that has an ["admin"] entry, whatever
    its fields, the users are the saved ones: the account is neither
    created again nor overwritten. *)
Theorem bootstrap_admin_once (f : file) (s : ArenaSystem) (a : User.t) :
  f = Missing ∨ f = Garbled ∨ f = Document (JDict []) →
  users s !! "admin" = Some a →
  (∃ s0, __init__ f = Some s0
         ∧ users s0 = {["admin" :=
              User.mk "admin" "admin123" "System Administrator" "admin@arena.com"
                      "Operator" true None]}
         ∧ leagues s0 = ∅ ∧ tournaments s0 = ∅ ∧ matches s0 = ∅
         ∧ advertisements s0 = ∅ ∧ current_user s0 = None)
  ∧ (∃ s1, __init__ (Document (dump s)) = Some s1
           ∧ users s1 = users s ∧ users s1 !! "admin" = Some a).
Proof.
  intros Hf Ha. split.
  - eexists. split; [by apply init_no_document|]. by cbn.
  - eexists. split; [apply init_dump; eauto|]. by cbn.
Qed.

(** ** The invariants hold in every reachable state *)

Lemma inv_save s : store_ok s → inv (set_data_file (Document (dump s)) s).
Proof. intros H. split; [exact H|]. by exists s. Qed.

Lemma tournaments_ok_insert m k t :
  tournament_ok t → tournaments_ok m → tournaments_ok (<[k := t]> m).
Proof.
  intros Ht Hm j x. rewrite lookup_insert_Some. intros [[_ <-]|[_ Hx]]; eauto.
Qed.

Lemma tournaments_ok_alter_at m k f :
  (∀ t, m !! k = Some t → tournament_ok t → tournament_ok (f t)) →
  tournaments_ok m → tournaments_ok (alter f k m).
Proof.
  intros Hf Hm j x. rewrite lookup_alter_Some.
  intros [[-> (y & Hy & ->)]|[_ Hx]]; eauto.
Qed.

Lemma register_user_inv u p n e r now s : inv s → inv (register_user u p n e r now s).2.
Proof.
  intros [[Hadm Ht] Hf]. destruct (users s !! u) eqn:E.
  - rewrite register_user_taken by eauto. done.
  - rewrite register_user_fresh by done. cbv zeta. cbn [snd].
    apply inv_save. split; [|exact Ht]. cbn.
    rewrite lookup_insert_is_Some'. by right.
Qed.

Lemma login_inv u p s : inv s → inv (login u p s).2.
Proof.
  intros Hinv. unfold login. unfold_M.
  repeat case_match; exact Hinv.
Qed.

Lemma approve_user_inv u s : inv s → inv (approve_user u s).2.
Proof.
  intros Hinv. unfold approve_user. unfold_M.
  case_match; [|exact Hinv]. cbn [snd]. apply inv_save.
  destruct Hinv as [[Hadm Ht] _]. split; [|exact Ht].
  cbn. by rewrite lookup_alter_is_Some.
Qed.

Lemma create_league_inv n g d now s : inv s → inv (create_league n g d now s).2.
Proof.
  intros Hinv. unfold create_league. unfold_M.
  destruct (current_user s) as [k|]; [|exact Hinv].
  destruct (users s !! k) as [usr|]; [|exact Hinv].
  cbn [snd]. apply inv_save. apply Hinv.
Qed.

Lemma create_advertisement_inv t c co now s :
  inv s → inv (create_advertisement t c co now s).2.
Proof.
  intros Hinv. unfold create_advertisement. unfold_M.
  destruct (current_user s) as [k|]; [|exact Hinv].
  destruct (users s !! k) as [usr|]; [|exact Hinv].
  cbn [snd]. apply inv_save. apply Hinv.
Qed.

Lemma create_tournament_inv l n sd mp pp now s :
  inv s → inv (create_tournament l n sd mp pp now s).2.
Proof.
  intros Hinv. unfold create_tournament. unfold_M.
  destruct (current_user s) as [k|]; [|exact Hinv].
  destruct (users s !! k) as [usr|]; [|exact Hinv].
  destruct (leagues s !! l); cbn [snd]; apply inv_save;
    (split; [apply Hinv|]); cbn;
    (apply tournaments_ok_insert; [|apply Hinv]);
    (split; cbn; [constructor | lia]).
Qed.

Lemma apply_for_tournament_inv t s : inv s → inv (apply_for_tournament t s).2.
Proof.
  intros Hinv. unfold apply_for_tournament. unfold_M.
  destruct (tournaments s !! t) as [x|] eqn:Ex; [|exact Hinv].
  destruct (current_user s) as [k|]; [|exact Hinv].
  destruct (users s !! k) as [usr|]; [|exact Hinv].
  case_bool_decide as Hin; [exact Hinv|].
  destruct (Z.geb_spec (Z.of_nat (length (Tournament.participants x)))
              (Tournament.max_players x)) as [Hfull|Hroom]; [exact Hinv|].
  cbn [snd]. apply inv_save. split; [apply Hinv|]. cbn.
  apply tournaments_ok_alter_at; [|apply Hinv].
  intros x' Hx' [Hnd Hle]. rewrite Ex in Hx'. injection Hx' as <-.
  split; cbn.
  - apply NoDup_app. split; [done|]. split; [|apply NoDup_singleton].
    intros y Hy ->%list_elem_of_singleton. done.
  - intros _. rewrite length_app. cbn. lia.
Qed.

Lemma for_each_preserves {A B} (P : ArenaSystem → Prop) (body : A → B → M B) :
  (∀ x acc s, P s → P (body x acc s).2) →
  ∀ xs acc s, P s → P (for_each xs acc body s).2.
Proof.
  intros Hb xs. induction xs as [|x xs IH]; intros acc s Hs; [done|].
  cbn [for_each]. unfold mbind, M_bind.
  specialize (Hb x acc s Hs).
  destruct (body x acc s) as [[a|e] s1]; cbn in *; eauto.
Qed.

Lemma tournament_ok_append_match m t :
  tournament_ok t → tournament_ok (Tournament.append_match m t).
Proof. done. Qed.

Lemma tournament_ok_set_status st t :
  tournament_ok t → tournament_ok (Tournament.set_status st t).
Proof. done. Qed.

Lemma tournament_ok_set_winner w t :
  tournament_ok t → tournament_ok (Tournament.set_winner w t).
Proof. done. Qed.

Lemma inv_upd_tournaments f s :
  inv s → (tournaments_ok (tournaments s) → tournaments_ok (f (tournaments s))) →
  inv (upd_tournaments f s).
Proof. intros [[Ha Ht] Hf] H. split; [split|]; auto. Qed.

Lemma inv_upd_matches f s : inv s → inv (upd_matches f s).
Proof. done. Qed.

Lemma create_match_inv tid ps now i n s :
  inv s → inv (create_match tid ps now i n s).2.
Proof.
  intros Hinv. unfold create_match. unfold_M.
  destruct (ps !! i); [|exact Hinv].
  case_bool_decide; [destruct (ps !! (i + 1)); [|exact Hinv]|];
    cbn [snd]; (apply inv_upd_tournaments; [by apply inv_upd_matches|]);
    intros Hok; apply tournaments_ok_alter_at; auto using tournament_ok_append_match.
Qed.

Lemma start_tournament_inv tid now s : inv s → inv (start_tournament tid now s).2.
Proof.
  intros Hinv. unfold start_tournament. unfold_M.
  destruct (tournaments s !! tid) as [t|]; [|exact Hinv].
  case_bool_decide; [exact Hinv|].
  set (s1 := upd_tournaments _ s).
  assert (Hs1 : inv s1).
  { apply inv_upd_tournaments; [done|]. intros Hok.
    apply tournaments_ok_alter_at; auto using tournament_ok_set_status. }
  pose proof (for_each_preserves inv
                (create_match tid (Tournament.participants t) now)
                (λ x acc s, create_match_inv tid _ now x acc s)
                (range 0 (length (Tournament.participants t) - 1) 2) 1 s1 Hs1) as Hloop.
  destruct (for_each _ _ _ s1) as [[a|e] s2]; cbn [snd] in *; [|exact Hloop].
  apply inv_save, Hloop.
Qed.

Lemma winners_of_state ms l s : (winners_of ms l s).2 = s.
Proof.
  induction l as [|m l IH]; [done|]. cbn [winners_of].
  destruct (ms !! m) as [mt|]; [|done]. unfold_M.
  destruct (winners_of ms l s) as [[ws|e] s1]; cbn [snd] in *; subst; [|done].
  by repeat case_match.
Qed.

Lemma record_match_result_inv m w sc now s :
  inv s → inv (record_match_result m w sc now s).2.
Proof.
  intros Hinv. unfold record_match_result. unfold_M.
  destruct (matches s !! m) as [mt|]; [|exact Hinv].
  cbn [tournaments upd_matches matches].
  destruct (tournaments s !! Match.tournament_id mt) as [t|]; [|exact Hinv].
  set (ms := <[m := _]> (matches s)).
  case_bool_decide.
  - pose proof (winners_of_state ms (Tournament.matches t)
       (mkArena (users s) (leagues s) (tournaments s) ms (advertisements s)
                (current_user s) (data_file s))) as Hw.
    destruct (winners_of _ _ _) as [[[|w1 ws]|e] s2]; cbn [snd] in *; subst s2;
      [apply inv_save; apply Hinv| |exact Hinv].
    apply inv_save. split; [apply Hinv|]. cbn.
    apply tournaments_ok_alter_at; [|apply Hinv].
    auto using tournament_ok_set_status, tournament_ok_set_winner.
  - apply inv_save; apply Hinv.
Qed.

Lemma step_inv o s : inv s → inv (step o s).
Proof.
  destruct o; cbn [step];
    auto using register_user_inv, login_inv, approve_user_inv, create_league_inv,
      create_tournament_inv, apply_for_tournament_inv, start_tournament_inv,
      record_match_result_inv, create_advertisement_inv.
Qed.

Lemma init_inv f s : file_ok f → __init__ f = Some s → inv s.
Proof.
  intros Hf Hinit. destruct f as [| |d].
  - rewrite init_no_document in Hinit by auto. injection Hinit as <-.
    split; [split|done]; [by cbn|]. intros tid t Ht. by cbn in Ht.
  - rewrite init_no_document in Hinit by auto. injection Hinit as <-.
    split; [split|done]; [by cbn|]. intros tid t Ht. by cbn in Ht.
  - destruct Hf as (s0 & -> & Hs0). rewrite init_dump in Hinit by apply Hs0.
    injection Hinit as <-. split; [exact Hs0|]. by exists s0.
Qed.

Lemma reachable_inv s : reachable s → inv s.
Proof.
  induction 1 as [f s [->| ->] Hinit|o s _ IH|s s' _ IH Hinit].
  - by apply (init_inv Missing).
  - by apply (init_inv Garbled).
  - by apply step_inv.
  - eapply init_inv; [|exact Hinit]. apply IH.
Qed.

Lemma bootstrap_admin_once_witness :
  (∃ s0, __init__ Garbled = Some s0 ∧ users s0 = {["admin" := default_admin]})
  ∧ (∃ s1, __init__ (Document (dump edited_store)) = Some s1
           ∧ users s1 !! "admin" = Some edited_admin).
Proof.
  destruct (bootstrap_admin_once Garbled edited_store edited_admin
              (or_intror (or_introl eq_refl)) eq_refl)
    as [(s0 & H0 & Hu & _) (s1 & H1 & _ & Ha)].
  split; [exists s0 | exists s1]; split; assumption.
Defined.

(** ** Round trip through the file *)









(** ** Participants of a tournament *)

(** The refusals of [apply_for_tournament] that keep the participants
    distinct and bounded. *)
Lemma apply_for_tournament_refuses s tournament_id t k u :
  tournaments s !! tournament_id = Some t →
  current_user s = Some k → users s !! k = Some u →
  (User.username u ∈ Tournament.participants t →
   apply_for_tournament tournament_id s
   = (Ok (false, "Already registered for this tournament"), s))
  ∧ (User.username u ∉ Tournament.participants t →
     (Tournament.max_players t ≤ Z.of_nat (length (Tournament.participants t)))%Z →
     apply_for_tournament tournament_id s = (Ok (false, "Tournament is full"), s)).
Proof.
  intros Ht Hk Hu. unfold apply_for_tournament. unfold_M. rewrite Ht, Hk, Hu.
  split.
  - intros Hin. by rewrite bool_decide_eq_true_2.
  - intros Hin Hfull. rewrite bool_decide_eq_false_2 by done.
    by destruct (Z.geb_spec (Z.of_nat (length (Tournament.participants t)))
                   (Tournament.max_players t)); [|lia].
Qed.

(** C8, as the code has it: in every reachable state, the participants of
    a tournament are pairwise distinct, and when [max_players] is not
    negative there are at most [max_players] of them;
    [apply_for_tournament] answers "Already registered for this tournament"
    or "Tournament is full", and changes nothing, where an append would
    break this. *)
Theorem participants_distinct_and_bounded s tournament_id t :
  reachable s →
  tournaments s !! tournament_id = Some t →
  (NoDup (Tournament.participants t)
   ∧ (0 ≤ Tournament.max_players t →
      Z.of_nat (length (Tournament.participants t)) ≤ Tournament.max_players t)%Z)
  ∧ ∀ k u,
      current_user s = Some k → users s !! k = Some u →
      (User.username u ∈ Tournament.participants t →
       apply_for_tournament tournament_id s
       = (Ok (false, "Already registered for this tournament"), s))
      ∧ (User.username u ∉ Tournament.participants t →
         (Tournament.max_players t ≤ Z.of_nat (length (Tournament.participants t)))%Z →
         apply_for_tournament tournament_id s = (Ok (false, "Tournament is full"), s)).
Proof.
  intros Hs Ht. split.
  - apply reachable_inv in Hs as [[_ Hok] _]. exact (Hok _ _ Ht).
  - intros k u Hk Hu. by apply (apply_for_tournament_refuses s tournament_id t k u).
Qed.

Lemma participants_distinct_and_bounded_witness :
  ∃ t, tournaments cup_of_two !! "TOUR_1" = Some t
       ∧ Tournament.participants t = ["alice"; "bob"]
       ∧ NoDup (Tournament.participants t)
       ∧ (0 ≤ Tournament.max_players t →
          Z.of_nat (length (Tournament.participants t)) ≤ Tournament.max_players t)%Z.
Proof.
  eexists. split; [vm_compute; reflexivity|]. split; [reflexivity|].
  eapply (participants_distinct_and_bounded cup_of_two "TOUR_1").
  - apply steps_reachable, steps_reachable, first_run_reachable.
  - vm_compute. reflexivity.
Defined.

(** C8, as stated, fails when a tournament is created with a negative
    [max_players], an integer the code accepts: the empty participant list
    is already longer than [max_players]. *)
Lemma negative_max_players_exceeded :
  reachable negative_cup
  ∧ ∃ t, tournaments negative_cup !! "TOUR_1" = Some t
         ∧ Tournament.max_players t = (-1)%Z
         ∧ ¬ (Z.of_nat (length (Tournament.participants t))
              ≤ Tournament.max_players t)%Z.
Proof.
  split; [apply steps_reachable, first_run_reachable|].
  eexists. split; [vm_compute; reflexivity|]. split; [reflexivity|].
  cbn. lia.
Qed.

(** ** Approval and login *)

Lemma create_match_users tid ps now i n s :
  users (create_match tid ps now i n s).2 = users s.
Proof.
  unfold create_match. unfold_M.
  destruct (ps !! i); [|done].
  case_bool_decide; [destruct (ps !! (i + 1)); [|done]|]; done.
Qed.

Lemma start_tournament_users tid now s :
  users (start_tournament tid now s).2 = users s.
Proof.
  unfold start_tournament. unfold_M.
  destruct (tournaments s !! tid) as [t|]; [|done].
  case_bool_decide; [done|].
  set (s1 := upd_tournaments _ s).
  pose proof (for_each_preserves (λ s', users s' = users s)
                (create_match tid (Tournament.participants t) now)
                (λ x acc s' H, eq_trans (create_match_users tid _ now x acc s') H)
                (range 0 (length (Tournament.participants t) - 1) 2) 1 s1 eq_refl)
    as Hloop.
  by destruct (for_each _ _ _ s1) as [[a|e] s2].
Qed.

Lemma record_match_result_users m w sc now s :
  users (record_match_result m w sc now s).2 = users s.
Proof.
  unfold record_match_result. unfold_M.
  destruct (matches s !! m) as [mt|]; [|done].
  cbn [tournaments upd_matches matches].
  destruct (tournaments s !! Match.tournament_id mt) as [t|]; [|done].
  set (ms := <[m := _]> (matches s)).
  case_bool_decide; [|done].
  pose proof (winners_of_state ms (Tournament.matches t)
     (mkArena (users s) (leagues s) (tournaments s) ms (advertisements s)
              (current_user s) (data_file s))) as Hw.
  by destruct (winners_of _ _ _) as [[[|w1 ws]|e] s2]; cbn [snd] in *; subst s2.
Qed.

Lemma step_users o s :
  (∀ u p n e r now, o ≠ RegisterUser u p n e r now) →
  (∀ u, o ≠ ApproveUser u) →
  users (step o s) = users s.
Proof.
  intros Hreg Happ. destruct o; cbn [step].
  - by destruct (Hreg username password name email role now).
  - unfold login. unfold_M. by repeat case_match.
  - by destruct (Happ username).
  - unfold create_league. unfold_M.
    destruct (current_user s) as [k|]; [destruct (users s !! k)|]; done.
  - unfold create_tournament. unfold_M.
    destruct (current_user s) as [k|]; [destruct (users s !! k)|]; [|done..].
    by destruct (leagues s !! league_id).
  - unfold apply_for_tournament. unfold_M.
    destruct (tournaments s !! tournament_id); [|done].
    destruct (current_user s) as [k|]; [destruct (users s !! k)|]; [|done..].
    by repeat case_match.
  - apply start_tournament_users.
  - apply record_match_result_users.
  - unfold create_advertisement. unfold_M.
    destruct (current_user s) as [k|]; [destruct (users s !! k)|]; done.
Qed.

Lemma set_approved_id usr : User.approved usr = true → User.set_approved true usr = usr.
Proof. destruct usr. cbn. by intros ->. Qed.

(** A call that does not approve [u] leaves the record of [u] alone. *)
Lemma step_keeps_user o s u usr :
  approves u o = false →
  users s !! u = Some usr →
  users (step o s) !! u = Some usr.
Proof.
  intros Ho Hu. destruct o as [u' p n e r now| |u'| | | | | |];
    try (rewrite step_users; [done|done|done]).
  - cbn [step]. destruct (users s !! u') eqn:E.
    + by rewrite register_user_taken.
    + rewrite register_user_fresh by done. cbn.
      rewrite lookup_insert_ne; [done|]. intros ->. congruence.
  - cbn [step approves] in *. apply bool_decide_eq_false in Ho.
    unfold approve_user. unfold_M.
    destruct (users s !! u'); [|done]. cbn. by rewrite lookup_alter_ne.
Qed.

(** No call takes an approval back. *)
Lemma step_keeps_approved o s u usr :
  users s !! u = Some usr → User.approved usr = true →
  users (step o s) !! u = Some usr.
Proof.
  intros Hu Hap. destruct (approves u o) eqn:Ho; [|by apply step_keeps_user].
  destruct o; try discriminate Ho. cbn [approves] in Ho.
  apply bool_decide_eq_true in Ho as ->.
  cbn [step]. unfold approve_user. unfold_M. rewrite Hu. cbn.
  rewrite lookup_alter_eq, Hu. cbn. by rewrite set_approved_id.
Qed.

Lemma steps_keeps_user os : ∀ s u usr,
  forallb (λ o, negb (approves u o)) os = true →
  users s !! u = Some usr →
  users (steps os s) !! u = Some usr.
Proof.
  induction os as [|o os IH]; intros s u usr Hos Hu; [done|].
  cbn in Hos. apply andb_true_iff in Hos as [Ho Hos].
  apply negb_true_iff in Ho. cbn. apply IH; [done|]. by apply step_keeps_user.
Qed.

Lemma steps_keeps_approved os : ∀ s u usr,
  users s !! u = Some usr → User.approved usr = true →
  users (steps os s) !! u = Some usr.
Proof.
  induction os as [|o os IH]; intros s u usr Hu Hap; [done|].
  cbn. apply IH; [|done]. by apply step_keeps_approved.
Qed.

Lemma login_not_approved s u usr :
  users s !! u = Some usr → User.approved usr = false →
  login u (User.password usr) s = (Ok (false, "Account not approved yet"), s).
Proof.
  intros Hu Hap. unfold login. unfold_M. rewrite Hu.
  rewrite bool_decide_eq_false_2 by (by intros []). by rewrite Hap.
Qed.

Lemma login_approved s u usr :
  users s !! u = Some usr → User.approved usr = true →
  login u (User.password usr) s
  = (Ok (true, "Login successful"), set_current_user (Some u) s).
Proof.
  intros Hu Hap. unfold login. unfold_M. rewrite Hu.
  rewrite bool_decide_eq_false_2 by (by intros []). by rewrite Hap.
Qed.

Lemma approve_user_found s u usr :
  users s !! u = Some usr →
  users (step (ApproveUser u) s) !! u = Some (User.set_approved true usr).
Proof.
  intros Hu. cbn [step]. unfold approve_user. unfold_M. rewrite Hu. cbn.
  by rewrite lookup_alter_eq, Hu.
Qed.

(** A call changes the record of [u] at most by approving it. *)
Lemma step_user_cases o s u usr :
  users s !! u = Some usr →
  users (step o s) !! u = Some usr
  ∨ users (step o s) !! u = Some (User.set_approved true usr).
Proof.
  intros Hu. destruct (approves u o) eqn:Ho; [|left; by apply step_keeps_user].
  destruct o; try discriminate Ho. cbn [approves] in Ho.
  apply bool_decide_eq_true in Ho as ->. right. by apply approve_user_found.
Qed.

Lemma steps_user_cases os : ∀ s u usr,
  users s !! u = Some usr →
  users (steps os s) !! u = Some usr
  ∨ users (steps os s) !! u = Some (User.set_approved true usr).
Proof.
  induction os as [|o os IH]; intros s u usr Hu; [by left|].
  cbn. destruct (step_user_cases o s u usr Hu) as [H|H].
  - by apply IH.
  - right. destruct (IH _ _ _ H) as [H'|H']; exact H'.
Qed.

(** C6: a successful [register_user] stores a user whose [approved] flag is
    true exactly when the role is ["Spectator"]. For any other role, after
    any calls none of which approves that username, [login] with the
    registered password answers [(False, "Account not approved yet")];
    once [approve_user] has been called on the username, whatever calls
    come before or after it, the same [login] succeeds. *)
Theorem approval_gates_login
  (s : ArenaSystem) (u p n e r now : string) (os os1 os2 : list op) :
  users s !! u = None →
  forallb (λ o, negb (approves u o)) os = true →
  let s1 := (register_user u p n e r now s).2 in
  let s2 := steps os2 (step (ApproveUser u) (steps os1 s1)) in
  (∃ usr, users s1 !! u = Some usr
          ∧ (User.approved usr = true ↔ r = UserRole.value UserRole.SPECTATOR))
  ∧ (r ≠ UserRole.value UserRole.SPECTATOR →
     login u p (steps os s1) = (Ok (false, "Account not approved yet"), steps os s1))
  ∧ login u p s2 = (Ok (true, "Login successful"), set_current_user (Some u) s2).
Proof.
  intros Hfresh Hos s1 s2.
  assert (Hu1 : users s1 !! u = Some (new_user u p n e r now)).
  { subst s1. rewrite register_user_fresh by done. cbn. by rewrite lookup_insert_eq. }
  split; [|split].
  - eexists. split; [exact Hu1|]. cbn. case_bool_decide; naive_solver.
  - intros Hr.
    apply (login_not_approved _ u (new_user u p n e r now)).
    + by apply steps_keeps_user.
    + cbn. by rewrite bool_decide_eq_true_2.
  - apply (login_approved s2 u (User.set_approved true (new_user u p n e r now))); [|done].
    subst s2. apply steps_keeps_approved; [|done].
    destruct (steps_user_cases os1 s1 u _ Hu1) as [H|H];
      by rewrite (approve_user_found _ _ _ H).
Qed.

Lemma approval_gates_login_witness :
  login "dave" "pw4" (steps sample_other_calls
                        (register_user "dave" "pw4" "Dave" "dave@arena.com"
                                       "Player" "t7" cup_of_two).2)
  = (Ok (false, "Account not approved yet"),
     steps sample_other_calls
       (register_user "dave" "pw4" "Dave" "dave@arena.com" "Player" "t7" cup_of_two).2)
  ∧ ∃ t, login "dave" "pw4"
           (steps sample_other_calls
              (step (ApproveUser "dave")
                 (steps sample_other_calls
                    (register_user "dave" "pw4" "Dave" "dave@arena.com"
                                   "Player" "t7" cup_of_two).2)))
         = (Ok (true, "Login successful"), t).
Proof.
  destruct (approval_gates_login cup_of_two "dave" "pw4" "Dave" "dave@arena.com"
              "Player" "t7" sample_other_calls sample_other_calls sample_other_calls
              eq_refl eq_refl) as (_ & Hno & Hyes).
  split; [apply Hno; discriminate|]. eexists. exact Hyes.
Defined.

(** ** Recording a result *)

Lemma is_completed_true ms m :
  is_completed ms m = true
  ↔ ∃ mt, ms !! m = Some mt
          ∧ Match.status mt = MatchStatus.value MatchStatus.COMPLETED.
Proof.
  unfold is_completed. destruct (ms !! m) as [mt|].
  - rewrite bool_decide_eq_true. split.
    + intros H. by exists mt.
    + by intros (mt' & [= <-] & H).
  - split; [done|]. by intros (mt & [=] & _).
Qed.

Lemma filter_length_le {A} (f : A → bool) (l : list A) :
  length (List.filter f l) ≤ length l.
Proof. induction l as [|x l IH]; cbn; [lia|]. destruct (f x); cbn; lia. Qed.

Lemma completed_count_all ms l :
  completed_count ms l = length l ↔ all_completed ms l.
Proof.
  unfold completed_count, all_completed. induction l as [|m l IH]; cbn.
  - split; [|done]. intros _ x Hx. by apply elem_of_nil in Hx.
  - destruct (is_completed ms m) eqn:E; cbn.
    + split.
      * intros Hlen x [->|Hx]%elem_of_cons.
        -- by apply is_completed_true.
        -- apply IH; [lia|done].
      * intros Hall. f_equal. apply IH. intros x Hx. apply Hall. by right.
    + split.
      * intros Hlen. pose proof (filter_length_le (is_completed ms) l). lia.
      * intros Hall. assert (is_completed ms m = true) as Habs.
        { apply is_completed_true, Hall. by left. }
        congruence.
Qed.

Lemma winners_of_all_completed ms l s :
  all_completed ms l →
  winners_of ms l s = (Ok (omap (λ m, ms !! m ≫= recorded_winner) l), s).
Proof.
  induction l as [|m l IH]; intros Hall; [done|].
  cbn [winners_of omap list_omap]. destruct (Hall m) as (mt & Hm & _); [by left|].
  rewrite Hm. unfold_M. rewrite IH by (intros x Hx; apply Hall; by right).
  cbn. unfold recorded_winner.
  destruct (Match.winner mt) as [w|]; [|done]. by case_bool_decide.
Qed.

Lemma head_winners ms l :
  head (omap (λ m, ms !! m ≫= recorded_winner) l) = first_winner ms l.
Proof.
  induction l as [|m l IH]; [done|]. cbn.
  by destruct (ms !! m ≫= recorded_winner).
Qed.

(** What a successful [record_match_result] leaves behind. *)
Lemma record_match_result_found s mid mt t w sc now :
  matches s !! mid = Some mt →
  tournaments s !! Match.tournament_id mt = Some t →
  record_match_result mid w sc now s
  = (Ok (true, "Match result recorded"), recorded s mid mt t w sc now).
Proof.
  intros Hm Ht. unfold record_match_result, recorded. unfold_M.
  rewrite Hm. cbn [tournaments matches upd_matches]. rewrite Ht.
  unfold completed_match.
  case_bool_decide as Hcount; [|done].
  apply completed_count_all in Hcount.
  rewrite winners_of_all_completed by exact Hcount.
  rewrite <- head_winners. by destruct (omap _ _).
Qed.

(** C3, as the code has it: a successful [record_match_result] completes
    the tournament of the match exactly when every match of the
    tournament's match list has status Completed and at least one of them
    has a recorded (non-empty) winner; the tournament then gets status
    Completed and, as winner, the winner of the first match of the list
    that has one. Otherwise the tournaments are left as they were. *)
Theorem record_match_result_completion s mid mt t w sc now :
  matches s !! mid = Some mt →
  tournaments s !! Match.tournament_id mt = Some t →
  ∃ s', record_match_result mid w sc now s
        = (Ok (true, "Match result recorded"), s')
    ∧ matches s' = <[mid := completed_match mt w sc now]> (matches s)
    ∧ (∀ w1,
         all_completed (matches s') (Tournament.matches t) →
         first_winner (matches s') (Tournament.matches t) = Some w1 →
         tournaments s'
         = <[Match.tournament_id mt := completed_tournament w1 t]> (tournaments s))
    ∧ (¬ (all_completed (matches s') (Tournament.matches t)
          ∧ is_Some (first_winner (matches s') (Tournament.matches t))) →
       tournaments s' = tournaments s).
Proof.
  intros Hm Ht. exists (recorded s mid mt t w sc now).
  split; [by apply record_match_result_found|].
  unfold recorded. cbv zeta. cbn [matches upd_matches].
  set (ms := <[mid := completed_match mt w sc now]> (matches s)).
  case_bool_decide as Hcount;
    [destruct (first_winner ms (Tournament.matches t)) as [w0|] eqn:Hfirst|];
    cbn [matches tournaments set_data_file upd_matches upd_tournaments];
    fold ms; (split; [done|]).
  - apply completed_count_all in Hcount. split.
    + intros w1 _ Hw1. rewrite Hfirst in Hw1. injection Hw1 as <-.
      by apply alter_alt_Some.
    + intros Hnot. destruct Hnot. rewrite Hfirst. split; [done|by eexists].
  - split; [|done]. intros w1 _ Hw1. rewrite Hfirst in Hw1. discriminate Hw1.
  - split; [|done].
    intros w1 Hall _. destruct Hcount. by apply completed_count_all.
Qed.

Lemma record_match_result_completion_witness :
  ∃ s', record_match_result "TOUR_1_MATCH_1" "alice" "2-0" "t7" cup_of_two_started
        = (Ok (true, "Match result recorded"), s')
        ∧ (Tournament.status <$> tournaments s' !! "TOUR_1" = Some "Completed")
        ∧ (Tournament.winner <$> tournaments s' !! "TOUR_1" = Some (Some "alice")).
Proof.
  destruct (record_match_result_completion cup_of_two_started "TOUR_1_MATCH_1"
              (Match.mk "TOUR_1_MATCH_1" "TOUR_1" "alice" "bob" "Scheduled"
                        None "" "t6" None)
              (Tournament.mk "TOUR_1" "LEAGUE_1" "Cup" "2024-01-01" 8 "100"
                 "In Progress" ["alice"; "bob"] ["TOUR_1_MATCH_1"] None "admin" "t5")
              "alice" "2-0" "t7" eq_refl eq_refl)
    as (s' & Hrun & Hms & Hdone & _).
  exists s'. split; [exact Hrun|].
  rewrite (Hdone "alice").
  - split; reflexivity.
  - rewrite Hms. intros m Hm. apply list_elem_of_singleton in Hm as ->.
    eexists. split; reflexivity.
  - rewrite Hms. reflexivity.
Defined.

(** C3, as stated, fails when the recorded winner is the empty string:
    every match of the list is Completed, and the tournament is not. *)
Lemma all_completed_yet_in_progress :
  record_match_result "TOUR_1_MATCH_1" "" "1-1" "t7" cup_of_two_started
  = (Ok (true, "Match result recorded"), cup_without_winner)
  ∧ ∃ t, tournaments cup_without_winner !! "TOUR_1" = Some t
         ∧ all_completed (matches cup_without_winner) (Tournament.matches t)
         ∧ Tournament.status t = "In Progress"
         ∧ Tournament.status t ≠ TournamentStatus.value TournamentStatus.COMPLETED.
Proof.
  split; [vm_compute; reflexivity|].
  eexists. split; [vm_compute; reflexivity|]. split; [|split; [reflexivity|discriminate]].
  intros m Hm. cbn in Hm. apply list_elem_of_singleton in Hm as ->.
  eexists. split; vm_compute; reflexivity.
Qed.

(** C10: [record_match_result] does not look at the status of the match.
    On a match that is already Completed it succeeds again, replaces the
    stored winner, score and completion date, and evaluates the completion
    rule again; so the winner of a Completed tournament can change: the cup
    won by alice is won by bob after a second call. *)
Theorem record_match_result_again s mid mt t w sc now :
  matches s !! mid = Some mt →
  Match.status mt = MatchStatus.value MatchStatus.COMPLETED →
  tournaments s !! Match.tournament_id mt = Some t →
  (∃ s', record_match_result mid w sc now s
         = (Ok (true, "Match result recorded"), s')
     ∧ matches s' !! mid
       = Some (Match.mk (Match.match_id mt) (Match.tournament_id mt)
                 (Match.player1 mt) (Match.player2 mt)
                 (MatchStatus.value MatchStatus.COMPLETED) (Some w) sc
                 (Match.created_date mt) (Some now))
     ∧ (∀ w1,
          all_completed (matches s') (Tournament.matches t) →
          first_winner (matches s') (Tournament.matches t) = Some w1 →
          tournaments s' !! Match.tournament_id mt
          = Some (completed_tournament w1 t)))
  ∧ (Tournament.status <$> tournaments cup_won_by_alice !! "TOUR_1"
       = Some (TournamentStatus.value TournamentStatus.COMPLETED)
     ∧ Tournament.winner <$> tournaments cup_won_by_alice !! "TOUR_1"
       = Some (Some "alice")
     ∧ ∃ s', record_match_result "TOUR_1_MATCH_1" "bob" "0-2" "t8" cup_won_by_alice
             = (Ok (true, "Match result recorded"), s')
             ∧ Tournament.status <$> tournaments s' !! "TOUR_1"
               = Some (TournamentStatus.value TournamentStatus.COMPLETED)
             ∧ Tournament.winner <$> tournaments s' !! "TOUR_1" = Some (Some "bob")).
Proof.
  intros Hm _ Ht. split.
  - exists (recorded s mid mt t w sc now).
    split; [by apply record_match_result_found|].
    unfold recorded. cbv zeta. cbn [matches upd_matches].
    set (ms := <[mid := completed_match mt w sc now]> (matches s)).
    assert (ms !! mid = Some (completed_match mt w sc now)) as Hnew
      by apply lookup_insert_eq.
    case_bool_decide as Hcount;
      [destruct (first_winner ms (Tournament.matches t)) as [w0|] eqn:Hfirst|];
      cbn [matches tournaments set_data_file upd_matches upd_tournaments];
      fold ms; (split; [exact Hnew|]); intros w1 Hall Hw1.
    + rewrite Hfirst in Hw1. injection Hw1 as <-.
      by rewrite lookup_alter_eq, Ht.
    + rewrite Hfirst in Hw1. discriminate Hw1.
    + destruct Hcount. by apply completed_count_all.
  - split; [vm_compute; reflexivity|]. split; [vm_compute; reflexivity|].
    eexists. split; [vm_compute; reflexivity|]. split; vm_compute; reflexivity.
Qed.

Lemma record_match_result_again_witness :
  ∃ s', record_match_result "TOUR_1_MATCH_1" "bob" "0-2" "t8" cup_won_by_alice
        = (Ok (true, "Match result recorded"), s')
        ∧ matches s' !! "TOUR_1_MATCH_1"
          = Some (Match.mk "TOUR_1_MATCH_1" "TOUR_1" "alice" "bob" "Completed"
                           (Some "bob") "0-2" "t6" (Some "t8")).
Proof.
  destruct (record_match_result_again cup_won_by_alice "TOUR_1_MATCH_1"
              (Match.mk "TOUR_1_MATCH_1" "TOUR_1" "alice" "bob" "Completed"
                        (Some "alice") "2-0" "t6" (Some "t7"))
              (Tournament.mk "TOUR_1" "LEAGUE_1" "Cup" "2024-01-01" 8 "100"
                 "Completed" ["alice"; "bob"] ["TOUR_1_MATCH_1"] (Some "alice")
                 "admin" "t5")
              "bob" "0-2" "t8" eq_refl eq_refl eq_refl)
    as [(s' & Hrun & Hm & _) _].
  exists s'. split; [exact Hrun | exact Hm].
Defined.

(** ** The bracket of [start_tournament] *)

Lemma range_from_nil (fuel i stop step : nat) :
  stop ≤ i → range_from fuel i stop step = [].
Proof.
  intros H. destruct fuel; [done|]. cbn.
  by rewrite bool_decide_eq_false_2 by lia.
Qed.

Lemma range_from_cons (fuel i stop step : nat) :
  i < stop →
  range_from (S fuel) i stop step = i :: range_from fuel (i + step) stop step.
Proof. intros H. cbn. by rewrite bool_decide_eq_true_2. Qed.

Lemma create_match_pair tid (ps : list string) now (i n : nat) a b s :
  ps !! i = Some a → ps !! (i + 1) = Some b →
  create_match tid ps now i n s
  = (Ok (n + 1),
     upd_tournaments (alter (Tournament.append_match (match_id_of tid n)) tid)
       (upd_matches <[match_id_of tid n := scheduled_match tid now n (a, b)]> s)).
Proof.
  intros Ha Hb. unfold create_match. unfold_M. rewrite Ha.
  rewrite bool_decide_eq_true_2 by (by apply lookup_lt_Some in Hb).
  by rewrite Hb.
Qed.

(** The loop over [range(0, len(participants) - 1, 2)], taken up at index
    [length pre] with the participants [rest] still ahead: a participant
    left alone at the end is never reached. *)
Lemma start_loop tid now (ps : list string) :
  ∀ (fuel : nat) (pre rest : list string) (n : nat) s,
  ps = pre ++ rest →
  length ps - 1 ≤ 2 * fuel + length pre →
  for_each (range_from fuel (length pre) (length ps - 1) 2) n
           (create_match tid ps now) s
  = (Ok (n + length (pair_up rest)), schedule tid now n (pair_up rest) s).
Proof.
  induction fuel as [|fuel IH]; intros pre rest n s Hps Hfuel.
  - assert (length rest ≤ 1) as Hrest.
    { rewrite Hps, length_app in Hfuel. lia. }
    destruct rest as [|a [|b rest]]; cbn in Hrest; [| |lia];
      cbn; by rewrite Nat.add_0_r.
  - destruct rest as [|a [|b rest]].
    + rewrite range_from_nil by (rewrite Hps, length_app; cbn; lia).
      cbn. by rewrite Nat.add_0_r.
    + rewrite range_from_nil by (rewrite Hps, length_app; cbn; lia).
      cbn. by rewrite Nat.add_0_r.
    + rewrite range_from_cons by (rewrite Hps, length_app; cbn; lia).
      cbn [for_each pair_up schedule]. unfold mbind at 1. unfold M_bind at 1.
      rewrite (create_match_pair tid ps now (length pre) n a b).
      * specialize (IH (pre ++ [a; b]) rest (n + 1)).
        rewrite length_app in IH. cbn [length] in IH.
        rewrite IH.
        -- cbn [length]. rewrite (Nat.add_1_r n). f_equal. f_equal. lia.
        -- rewrite Hps. by rewrite <- app_assoc.
        -- lia.
      * rewrite Hps. by rewrite list_lookup_middle.
      * rewrite Hps. rewrite lookup_app_r by lia.
        by replace (length pre + 1 - length pre) with 1 by lia.
Qed.

Lemma schedule_frame tid now pairs : ∀ n s,
  users (schedule tid now n pairs s) = users s
  ∧ leagues (schedule tid now n pairs s) = leagues s
  ∧ advertisements (schedule tid now n pairs s) = advertisements s
  ∧ current_user (schedule tid now n pairs s) = current_user s
  ∧ data_file (schedule tid now n pairs s) = data_file s.
Proof.
  induction pairs as [|p pairs IH]; intros n s; [done|].
  cbn [schedule]. by destruct (IH (S n) (upd_tournaments
    (alter (Tournament.append_match (match_id_of tid n)) tid)
    (upd_matches <[match_id_of tid n := scheduled_match tid now n p]> s)))
    as (-> & -> & -> & -> & ->).
Qed.

Lemma schedule_matches tid now pairs : ∀ n s,
  matches (schedule tid now n pairs s)
  = scheduled_matches tid now n pairs (matches s).
Proof.
  induction pairs as [|p pairs IH]; intros n s; [done|].
  cbn [schedule scheduled_matches]. by rewrite IH.
Qed.

Lemma append_matches_cons m ids t :
  append_matches ids (Tournament.append_match m t) = append_matches (m :: ids) t.
Proof. unfold append_matches. cbn. by rewrite <- app_assoc. Qed.

Lemma schedule_tournaments tid now pairs : ∀ n s,
  tournaments (schedule tid now n pairs s)
  = alter (append_matches (match_id_of tid <$> seq n (length pairs))) tid
          (tournaments s).
Proof.
  induction pairs as [|p pairs IH]; intros n s.
  - cbn. symmetry. apply alter_id. intros t _.
    unfold append_matches. destruct t. cbn. by rewrite app_nil_r.
  - cbn [schedule length seq fmap list_fmap]. rewrite IH. cbn [tournaments upd_tournaments
      upd_matches].
    rewrite alter_alter_eq. apply alter_ext. intros t _. cbn.
    apply append_matches_cons.
Qed.

Lemma pair_up_length (ps : list string) :
  length (pair_up ps) = Nat.div2 (length ps)
  ∧ ∀ a, length (pair_up (a :: ps)) = Nat.div2 (S (length ps)).
Proof.
  induction ps as [|b ps [IH1 IH2]]; [done|]. split; [apply IH2|].
  intros a. cbn [pair_up length Nat.div2]. by rewrite IH1.
Qed.

(** What [start_tournament] does with two participants or more. *)
Lemma start_tournament_started s tid t now :
  tournaments s !! tid = Some t →
  2 ≤ length (Tournament.participants t) →
  start_tournament tid now s
  = (Ok (true, "Tournament started successfully"),
     let s2 := schedule tid now 1 (pair_up (Tournament.participants t))
                 (upd_tournaments
                    (alter (Tournament.set_status
                              (TournamentStatus.value TournamentStatus.IN_PROGRESS))
                           tid) s) in
     set_data_file (Document (dump s2)) s2).
Proof.
  intros Ht Hlen. unfold start_tournament. unfold mbind at 1. unfold M_bind at 1.
  unfold get at 1. rewrite Ht.
  rewrite bool_decide_eq_false_2 by lia.
  unfold mbind at 1. unfold M_bind at 1. unfold modify at 1.
  unfold mbind at 1. unfold M_bind at 1. unfold range.
  rewrite (start_loop tid now (Tournament.participants t)
             (length (Tournament.participants t) - 1) []
             (Tournament.participants t) 1); [done|done|cbn; lia].
Qed.

(** C1, as the code runs: [start_tournament] takes the participants two at
    a time in registration order and stores one Scheduled match per pair,
    numbered from 1, listing their ids in the tournament in that order. The
    loop stops before a participant left alone at the end: with [n]
    participants there are [n / 2] matches, rounded down, and no match
    against ["BYE"] is made for the odd one. *)
Theorem start_tournament_pairs_adjacent s tournament_id t now :
  tournaments s !! tournament_id = Some t →
  2 ≤ length (Tournament.participants t) →
  ∃ s', start_tournament tournament_id now s
        = (Ok (true, "Tournament started successfully"), s')
    ∧ matches s'
      = scheduled_matches tournament_id now 1
          (pair_up (Tournament.participants t)) (matches s)
    ∧ tournaments s'
      = <[tournament_id :=
            append_matches
              (match_id_of tournament_id
                 <$> seq 1 (length (pair_up (Tournament.participants t))))
              (Tournament.set_status
                 (TournamentStatus.value TournamentStatus.IN_PROGRESS) t)]>
          (tournaments s)
    ∧ length (pair_up (Tournament.participants t))
      = Nat.div2 (length (Tournament.participants t)).
Proof.
  intros Ht Hlen. eexists. split; [by apply start_tournament_started|].
  cbv zeta. cbn [matches tournaments set_data_file].
  rewrite schedule_matches, schedule_tournaments. cbn [matches tournaments upd_tournaments].
  split; [done|]. split; [|apply pair_up_length].
  rewrite alter_alter_eq.
  by rewrite (alter_alt_Some _ _ _ _ Ht).
Qed.

Lemma start_tournament_pairs_adjacent_witness :
  Tournament.participants <$> tournaments cup_of_three !! "TOUR_1"
  = Some ["alice"; "bob"; "carol"]
  ∧ ∃ s', start_tournament "TOUR_1" (clock "t6") cup_of_three
          = (Ok (true, "Tournament started successfully"), s')
          ∧ matches s'
            = {["TOUR_1_MATCH_1" :=
                 Match.mk "TOUR_1_MATCH_1" "TOUR_1" "alice" "bob" "Scheduled"
                          None "" "t6" None]}
          ∧ Tournament.matches <$> tournaments s' !! "TOUR_1"
            = Some ["TOUR_1_MATCH_1"].
Proof.
  split; [vm_compute; reflexivity|].
  destruct (start_tournament_pairs_adjacent cup_of_three "TOUR_1"
              (Tournament.mk "TOUR_1" "LEAGUE_1" "Cup" "2024-01-01" 8 "100"
                 "Open for Registration" ["alice"; "bob"; "carol"] [] None
                 "admin" "t5")
              (clock "t6") eq_refl)
    as (s' & Hrun & Hms & Hts & _); [cbn; lia|].
  exists s'. split; [exact Hrun|]. split.
  - rewrite Hms. vm_compute. reflexivity.
  - rewrite Hts. vm_compute. reflexivity.
Defined.

(** With four participants the two pairs get their matches. *)
Example start_tournament_four :
  map_to_list (matches (start_tournament "TOUR_1" (clock "t9") cup_of_four).2)
  = [ ("TOUR_1_MATCH_1",
       Match.mk "TOUR_1_MATCH_1" "TOUR_1" "alice" "bob" "Scheduled" None "" "t9" None);
      ("TOUR_1_MATCH_2",
       Match.mk "TOUR_1_MATCH_2" "TOUR_1" "carol" "dave" "Scheduled" None "" "t9" None) ].
Proof. vm_compute. reflexivity. Qed.

(** ** Every call ends in one of a few ways *)

Lemma recorded_saved s mid mt t w sc now :
  recorded s mid mt t w sc now = saved (with_result s mid mt t w sc now).
Proof. reflexivity. Qed.

Lemma step_behaves o s : behaves o s (fault o s) (step o s).
Proof.
  destruct o as [u p n e r now|u p|u|n g d now|l n sd mp pp now|tid|tid now
                 |mid w sc now|t c co now]; cbn [step fault].
  - destruct (users s !! u) eqn:E.
    + rewrite register_user_taken by eauto. constructor.
    + rewrite register_user_fresh by done. cbv zeta. cbn [fst snd fault_of].
      apply behaves_saved. by constructor.
  - unfold login. unfold_M. destruct (users s !! u) as [usr|] eqn:E; [|constructor].
    case_bool_decide as Hp; [constructor|].
    destruct (User.approved usr) eqn:Ha; cbn [negb fst snd fault_of]; [|constructor].
    eapply behaves_login; eauto.
  - unfold approve_user. unfold_M. destruct (users s !! u) as [usr|] eqn:E.
    + cbn [fst snd fault_of]. apply behaves_saved. by econstructor.
    + cbn. by eapply behaves_unknown_user.
  - destruct (current_user s) as [k|] eqn:Hk.
    + destruct (users s !! k) as [usr|] eqn:Hu.
      * rewrite (create_league_as s k usr) by done. cbv zeta. cbn [fst snd fault_of].
        apply behaves_saved. by econstructor.
      * unfold create_league. unfold_M. rewrite Hk, Hu. cbn.
        by eapply behaves_lost_user.
    + rewrite create_league_no_user by done. cbn. by apply behaves_no_user.
  - destruct (current_user s) as [k|] eqn:Hk.
    + destruct (users s !! k) as [usr|] eqn:Hu.
      * rewrite (create_tournament_as s k usr) by done. cbv zeta. cbn [fst snd fault_of].
        apply (behaves_saved _ _ (with_tournament s l n sd mp pp (User.username usr) now)).
        by econstructor.
      * unfold create_tournament. unfold_M. rewrite Hk, Hu. cbn.
        by eapply behaves_lost_user.
    + rewrite create_tournament_no_user by done. cbn. by apply behaves_no_user.
  - unfold apply_for_tournament. unfold_M.
    destruct (tournaments s !! tid) as [t|] eqn:Ht; [|constructor].
    destruct (current_user s) as [k|] eqn:Hk;
      [destruct (users s !! k) as [usr|] eqn:Hu|]; cbn [fst snd fault_of].
    + case_bool_decide as Hin; [constructor|].
      destruct (Z.geb_spec (Z.of_nat (length (Tournament.participants t)))
                  (Tournament.max_players t)) as [Hfull|Hroom]; [constructor|].
      cbn [fst snd fault_of]. apply behaves_saved. by econstructor.
    + by eapply behaves_lost_user.
    + by apply behaves_no_user.
  - destruct (tournaments s !! tid) as [t|] eqn:Ht.
    + destruct (decide (length (Tournament.participants t) < 2)) as [Hlt|Hge].
      * rewrite (start_tournament_too_few s tid t) by done. constructor.
      * rewrite (start_tournament_started s tid t) by (done || lia).
        cbv zeta. cbn [fst snd fault_of]. apply behaves_saved. constructor; [done|lia].
    + unfold start_tournament. unfold_M. rewrite Ht. constructor.
  - destruct (matches s !! mid) as [mt|] eqn:Hm.
    + destruct (tournaments s !! Match.tournament_id mt) as [t|] eqn:Ht.
      * rewrite (record_match_result_found s mid mt t) by done.
        cbn [fst snd fault_of]. rewrite recorded_saved.
        apply behaves_saved. by constructor.
      * unfold record_match_result. unfold_M. rewrite Hm.
        cbn [tournaments upd_matches]. rewrite Ht. cbn [fst snd fault_of].
        by eapply behaves_lost_tournament.
    + unfold record_match_result. unfold_M. rewrite Hm. constructor.
  - destruct (current_user s) as [k|] eqn:Hk.
    + destruct (users s !! k) as [usr|] eqn:Hu.
      * rewrite (create_advertisement_as s k usr) by done. cbv zeta.
        cbn [fst snd fault_of]. apply behaves_saved. by econstructor.
      * unfold create_advertisement. unfold_M. rewrite Hk, Hu. cbn.
        by eapply behaves_lost_user.
    + rewrite create_advertisement_no_user by done. cbn. by apply behaves_no_user.
Qed.

(** ** Match ids determine the tournament and the number *)

Lemma pretty_N_char_no_underscore x : pretty_N_char x ≠ "_"%char.
Proof. unfold pretty_N_char. by repeat case_match. Qed.

Lemma pretty_N_go_no_underscore x : ∀ s,
  no_underscore s → no_underscore (pretty_N_go x s).
Proof.
  induction (N.lt_wf_0 x) as [x _ IH]; intros s Hs.
  assert (x = 0 ∨ 0 < x)%N as [->|Hpos] by lia.
  - by rewrite pretty_N_go_0.
  - rewrite pretty_N_go_step by done. apply IH.
    + by apply N.div_lt.
    + split; [apply pretty_N_char_no_underscore|done].
Qed.

Lemma pretty_nat_no_underscore (n : nat) : no_underscore (pretty n).
Proof.
  unfold pretty, pretty_nat, pretty, pretty_N. case_decide.
  - cbn. split; [discriminate|done].
  - by apply pretty_N_go_no_underscore.
Qed.

Lemma string_app_cons (c : ascii) (x y : string) :
  String c x +:+ y = String c (x +:+ y).
Proof. reflexivity. Qed.

Lemma string_app_nil (y : string) : "" +:+ y = y.
Proof. reflexivity. Qed.

Lemma string_app_assoc (x y z : string) : (x +:+ y) +:+ z = x +:+ y +:+ z.
Proof.
  induction x as [|c x IH]; [done|].
  by rewrite !string_app_cons, IH.
Qed.

Lemma string_app_length (x y : string) :
  String.length (x +:+ y) = String.length x + String.length y.
Proof.
  induction x as [|c x IH]; [done|].
  rewrite string_app_cons. cbn. by rewrite IH.
Qed.

Lemma string_app_inj_r (x y z : string) : x +:+ z = y +:+ z → x = y.
Proof.
  revert y. induction x as [|c x IH]; intros [|d y] H;
    rewrite ?string_app_cons, ?string_app_nil in H.
  - done.
  - apply (f_equal String.length) in H. cbn in H.
    rewrite string_app_length in H. lia.
  - apply (f_equal String.length) in H. cbn in H.
    rewrite string_app_length in H. lia.
  - injection H as -> H. f_equal. by apply IH.
Qed.

Lemma no_underscore_app_underscore (y b : string) :
  ¬ no_underscore (y +:+ String "_" b).
Proof.
  induction y as [|c y IH]; rewrite ?string_app_cons, ?string_app_nil;
    cbn; intros [H1 H2]; [done|by apply IH].
Qed.

(** Two strings that end in an underscore followed by a part without
    underscore agree only part by part. *)
Lemma split_last_underscore (x y a b : string) :
  no_underscore a → no_underscore b →
  x +:+ String "_" a = y +:+ String "_" b → x = y ∧ a = b.
Proof.
  intros Ha Hb. revert y. induction x as [|c x IH]; intros [|d y] H;
    rewrite ?string_app_cons, ?string_app_nil in H.
  - by injection H as ->.
  - injection H as <- ->. by destruct (no_underscore_app_underscore y b).
  - injection H as -> <-. by destruct (no_underscore_app_underscore x a).
  - injection H as -> H. destruct (IH y H) as [-> ->]. done.
Qed.

Lemma match_id_of_split (tid : string) (n : nat) :
  match_id_of tid n = (tid +:+ "_MATCH") +:+ String "_" (pretty n).
Proof. unfold match_id_of. by rewrite string_app_assoc. Qed.

Lemma match_id_of_inj (tid tid' : string) (n n' : nat) :
  match_id_of tid n = match_id_of tid' n' → tid = tid' ∧ n = n'.
Proof.
  rewrite !match_id_of_split. intros H.
  apply split_last_underscore in H as [Ht Hn];
    [|apply pretty_nat_no_underscore..].
  split.
  - by apply string_app_inj_r in Ht.
  - by apply (inj pretty) in Hn.
Qed.

(** ** Numbered keys *)

Lemma numbered_fresh {A} (prefix : string) (m : gmap string A) :
  numbered prefix m → m !! (prefix +:+ pretty (size m + 1)) = None.
Proof.
  intros Hnum. apply eq_None_not_Some. intros (i & Hi & Heq)%Hnum.
  apply (inj (String.append prefix)), (inj pretty) in Heq. lia.
Qed.

Lemma numbered_insert {A} (prefix : string) (m : gmap string A) x :
  numbered prefix m →
  numbered prefix (<[prefix +:+ pretty (size m + 1) := x]> m).
Proof.
  intros Hnum k. rewrite map_size_insert_None by by apply numbered_fresh.
  rewrite lookup_insert_is_Some'. split.
  - intros [<-|(i & Hi & ->)%Hnum].
    + exists (size m + 1). split; [lia|done].
    + exists i. split; [lia|done].
  - intros (i & Hi & ->). destruct (decide (i = size m + 1)) as [->|Hne].
    + by left.
    + right. apply Hnum. exists i. split; [lia|done].
Qed.

Lemma map_size_alter {A} (f : A → A) (k : string) (m : gmap string A) :
  size (alter f k m) = size m.
Proof.
  destruct (m !! k) as [x|] eqn:E.
  - rewrite (alter_alt_Some _ _ _ _ E). by apply map_size_insert_Some.
  - f_equal. apply map_eq. intros j. rewrite lookup_alter.
    case_decide; [subst; by rewrite E|done].
Qed.

Lemma numbered_alter {A} (prefix : string) (f : A → A) k (m : gmap string A) :
  numbered prefix m → numbered prefix (alter f k m).
Proof.
  intros Hnum j. rewrite lookup_alter_is_Some, map_size_alter. apply Hnum.
Qed.

(** ** Changes keep the store well-formed *)

Lemma schedule_users tid now n pairs s :
  users (schedule tid now n pairs s) = users s.
Proof. apply schedule_frame. Qed.

Lemma schedule_leagues tid now n pairs s :
  leagues (schedule tid now n pairs s) = leagues s.
Proof. apply schedule_frame. Qed.

Lemma schedule_advertisements tid now n pairs s :
  advertisements (schedule tid now n pairs s) = advertisements s.
Proof. apply schedule_frame. Qed.

Lemma schedule_current_user tid now n pairs s :
  current_user (schedule tid now n pairs s) = current_user s.
Proof. apply schedule_frame. Qed.

Lemma with_tournament_users s l n sd mp pp cb now :
  users (with_tournament s l n sd mp pp cb now) = users s.
Proof. unfold with_tournament. by destruct (leagues s !! l). Qed.

Lemma with_result_users s mid mt t w sc now :
  users (with_result s mid mt t w sc now) = users s.
Proof. unfold with_result. by repeat case_match. Qed.

(** A change of the store touches the accounts in one of three ways. *)
Lemma mutation_users o s s1 :
  mutation o s s1 →
  users s1 = users s
  ∨ (∃ u p n e r now, users s !! u = None
       ∧ users s1 = <[u := new_user u p n e r now]> (users s))
  ∨ (∃ u, users s1 = alter (User.set_approved true) u (users s)).
Proof.
  intros H. destruct H; cbn [users upd_users upd_leagues upd_tournaments
                            upd_advertisements];
    rewrite ?schedule_users, ?with_tournament_users, ?with_result_users; eauto 10.
Qed.

Lemma mutation_current_user o s s1 :
  mutation o s s1 → current_user s1 = current_user s.
Proof.
  intros H. destruct H; cbn; rewrite ?schedule_current_user; try done.
  - unfold with_tournament. by destruct (leagues _ !! _).
  - unfold with_result. by repeat case_match.
Qed.

Lemma mutation_user_keys o s s1 : mutation o s s1 → user_keys s → user_keys s1.
Proof.
  intros Hmut Hkeys k x.
  destruct (mutation_users o s s1 Hmut)
    as [->|[(u & p & n & e & r & now & Hfresh & ->)|(u & ->)]].
  - apply Hkeys.
  - rewrite lookup_insert_Some. intros [[<- <-]|[_ Hx]]; [done|by apply Hkeys].
  - rewrite lookup_alter_Some. intros [[<- (y & Hy & ->)]|[_ Hx]].
    + cbn. by apply Hkeys.
    + by apply Hkeys.
Qed.

(** No change removes an account or takes an approval back. *)
Lemma mutation_keeps_account o s s1 k :
  mutation o s s1 →
  (is_Some (users s !! k) → is_Some (users s1 !! k))
  ∧ ((∃ u, users s !! k = Some u ∧ User.approved u = true) →
     ∃ u, users s1 !! k = Some u ∧ User.approved u = true).
Proof.
  intros Hmut.
  destruct (mutation_users o s s1 Hmut)
    as [->|[(u & p & n & e & r & now & Hfresh & ->)|(u & ->)]].
  - done.
  - split.
    + rewrite lookup_insert_is_Some'. by right.
    + intros (x & Hx & Hap). exists x. split; [|done].
      rewrite lookup_insert_ne; [done|]. intros ->. congruence.
  - split.
    + by rewrite lookup_alter_is_Some.
    + intros (x & Hx & Hap). destruct (decide (u = k)) as [->|Hne].
      * exists (User.set_approved true x). by rewrite lookup_alter_eq, Hx.
      * exists x. by rewrite lookup_alter_ne.
Qed.

Lemma mutation_session o s s1 : mutation o s s1 → session_ok s → session_ok s1.
Proof.
  intros Hmut Hses k. rewrite (mutation_current_user o s s1 Hmut). intros Hk.
  by apply (mutation_keeps_account o s s1 k Hmut), Hses.
Qed.

Lemma mutation_ids o s s1 : mutation o s s1 → ids_ok s → ids_ok s1.
Proof.
  intros Hmut (Hl & Ht & Ha). destruct Hmut; unfold ids_ok;
    cbn [leagues tournaments advertisements upd_users upd_leagues upd_tournaments
         upd_advertisements].
  - done.
  - done.
  - split; [|done]. by apply numbered_insert.
  - unfold with_tournament, next_tournament_id.
    destruct (leagues s !! l); cbn; (split; [|split; [|done]]);
      auto using numbered_insert, numbered_alter.
  - split; [done|]. split; [|done]. by apply numbered_alter.
  - rewrite schedule_leagues, schedule_advertisements, schedule_tournaments. cbn.
    split; [done|]. split; [|done]. by do 2 apply numbered_alter.
  - unfold with_result. repeat case_match; cbn; try done.
    split; [done|]. split; [|done]. by apply numbered_alter.
  - split; [done|]. split; [done|]. by apply numbered_insert.
Qed.

Lemma pair_up_elem (ps : list string) :
  (∀ a b, (a, b) ∈ pair_up ps → a ∈ ps ∧ b ∈ ps)
  ∧ (∀ x a b, (a, b) ∈ pair_up (x :: ps) → a ∈ x :: ps ∧ b ∈ x :: ps).
Proof.
  induction ps as [|y ps [IH1 IH2]].
  - split; intros; by apply elem_of_nil in H.
  - split; [apply IH2|]. intros x a b. cbn [pair_up].
    intros [[= -> ->]|Hin]%elem_of_cons.
    + split; [by left|right; by left].
    + destruct (IH1 a b Hin). split; by do 2 right.
Qed.

Lemma scheduled_matches_lookup tid now pairs : ∀ n ms k m,
  scheduled_matches tid now n pairs ms !! k = Some m →
  ms !! k = Some m
  ∨ ∃ i p, pairs !! i = Some p ∧ k = match_id_of tid (n + i)
           ∧ m = scheduled_match tid now (n + i) p.
Proof.
  induction pairs as [|p pairs IH]; intros n ms k m; cbn [scheduled_matches].
  - by left.
  - intros [Hold|(i & q & Hq & -> & ->)]%IH.
    + apply lookup_insert_Some in Hold as [[<- <-]|[_ Hold]]; [|by left].
      right. exists 0, p. by rewrite Nat.add_0_r.
    + right. exists (S i), q. split; [done|]. by rewrite Nat.add_succ_r.
Qed.

Lemma scheduled_matches_old tid now pairs : ∀ n ms k,
  (∀ i, k ≠ match_id_of tid i) →
  scheduled_matches tid now n pairs ms !! k = ms !! k.
Proof.
  induction pairs as [|p pairs IH]; intros n ms k Hk; cbn [scheduled_matches]; [done|].
  rewrite IH by done. by rewrite lookup_insert_ne.
Qed.

Lemma scheduled_matches_frame tid now pairs : ∀ n ms k,
  (∀ i, i < length pairs → k ≠ match_id_of tid (n + i)) →
  scheduled_matches tid now n pairs ms !! k = ms !! k.
Proof.
  induction pairs as [|p pairs IH]; intros n ms k Hk; cbn [scheduled_matches]; [done|].
  rewrite IH.
  - rewrite lookup_insert_ne; [done|]. intros <-. apply (Hk 0); [cbn; lia|].
    by rewrite Nat.add_0_r.
  - intros i Hi. rewrite Nat.add_succ_l, <- Nat.add_succ_r. apply Hk. cbn. lia.
Qed.

Lemma scheduled_matches_new tid now pairs : ∀ n ms i p,
  pairs !! i = Some p →
  scheduled_matches tid now n pairs ms !! match_id_of tid (n + i)
  = Some (scheduled_match tid now (n + i) p).
Proof.
  induction pairs as [|q pairs IH]; intros n ms i p Hp; [done|].
  cbn [scheduled_matches]. destruct i as [|i].
  - injection Hp as ->. rewrite Nat.add_0_r.
    assert (∀ rest m0, m0 !! match_id_of tid n = Some (scheduled_match tid now n p) →
            ∀ k, n < k →
            scheduled_matches tid now k rest m0 !! match_id_of tid n
            = Some (scheduled_match tid now n p)) as Hkeep.
    { clear. induction rest as [|r rest IHr]; intros m0 Hm0 k Hk; [done|].
      cbn [scheduled_matches]. apply IHr; [|lia].
      rewrite lookup_insert_ne; [done|].
      intros [_ ?]%match_id_of_inj. lia. }
    apply Hkeep; [by rewrite lookup_insert_eq|lia].
  - rewrite Nat.add_succ_r. apply (IH (S n)). exact Hp.
Qed.

Lemma first_winner_nonempty ms l w : first_winner ms l = Some w → w ≠ "".
Proof.
  induction l as [|m l IH]; [done|]. cbn [first_winner].
  destruct (ms !! m ≫= recorded_winner) as [w'|] eqn:E; [|done].
  intros [= ->]. destruct (ms !! m) as [mt|]; [|done]. cbn in E.
  unfold recorded_winner in E. destruct (Match.winner mt) as [x|]; [|done].
  case_bool_decide; [|done]. by injection E as ->.
Qed.

(** A change keeps every tournament, with its identity and at least its
    participants. *)
Lemma mutation_tournaments o s s1 :
  mutation o s s1 → ids_ok s →
  ∀ tid t, tournaments s !! tid = Some t →
    ∃ t', tournaments s1 !! tid = Some t'
          ∧ Tournament.tournament_id t' = Tournament.tournament_id t
          ∧ Tournament.league_id t' = Tournament.league_id t
          ∧ Tournament.created_by t' = Tournament.created_by t
          ∧ (∀ p, p ∈ Tournament.participants t → p ∈ Tournament.participants t').
Proof.
  intros Hmut (_ & Hnum & _) tid t Ht.
  destruct Hmut; cbn [tournaments upd_users upd_leagues upd_tournaments
                       upd_advertisements]; try by (exists t).
  - exists t. split; [|done]. unfold with_tournament.
    assert (tournaments s !! next_tournament_id s = None) as Hfresh
      by by apply numbered_fresh.
    destruct (leagues s !! l); cbn; rewrite lookup_insert_ne; try done;
      intros <-; congruence.
  - destruct (decide (tid0 = tid)) as [->|Hne].
    + exists (joined (User.username usr) t). rewrite lookup_alter_eq, Ht.
      split; [done|]. do 3 (split; [done|]). intros p Hp. cbn.
      apply elem_of_app. by left.
    + exists t. by rewrite lookup_alter_ne.
  - rewrite schedule_tournaments. cbn. rewrite alter_alter_eq.
    destruct (decide (tid0 = tid)) as [->|Hne].
    + eexists. rewrite lookup_alter_eq, Ht. cbn. done.
    + exists t. by rewrite lookup_alter_ne.
  - unfold with_result. repeat case_match; cbn; try by (exists t).
    destruct (decide (Match.tournament_id mt = tid)) as [->|Hne].
    + eexists. rewrite lookup_alter_eq, Ht. cbn. done.
    + exists t. by rewrite lookup_alter_ne.
Qed.

Lemma scheduled_matches_is_Some tid now pairs : ∀ n (ms : gmap string Match.t) k,
  is_Some (ms !! k) → is_Some (scheduled_matches tid now n pairs ms !! k).
Proof.
  induction pairs as [|p pairs IH]; intros n ms k Hk; cbn [scheduled_matches]; [done|].
  apply IH. rewrite lookup_insert_is_Some'. by right.
Qed.

Lemma with_result_matches s mid mt t w sc now :
  matches (with_result s mid mt t w sc now)
  = <[mid := completed_match mt w sc now]> (matches s).
Proof. unfold with_result. by repeat case_match. Qed.

Lemma with_tournament_matches s l n sd mp pp cb now :
  matches (with_tournament s l n sd mp pp cb now) = matches s.
Proof. unfold with_tournament. by destruct (leagues s !! l). Qed.

(** A change keeps every match, in its tournament. *)
Lemma mutation_matches o s s1 :
  mutation o s s1 → matches_ok s →
  ∀ m mt, matches s !! m = Some mt →
    ∃ mt', matches s1 !! m = Some mt'
           ∧ Match.tournament_id mt' = Match.tournament_id mt.
Proof.
  intros Hmut Hok m mt Hm.
  destruct Hmut; cbn [matches upd_users upd_leagues upd_tournaments
                       upd_advertisements];
    rewrite ?with_tournament_matches, ?with_result_matches; try by (exists mt).
  - rewrite schedule_matches. cbn [matches upd_tournaments].
    destruct (scheduled_matches_is_Some tid now
                (pair_up (Tournament.participants t)) 1 (matches s) m)
      as [mt' Hmt']; [by eexists|].
    exists mt'. split; [done|].
    apply scheduled_matches_lookup in Hmt' as [Hold|(i & p & Hp & -> & ->)].
    + congruence.
    + destruct (Hok _ _ Hm) as (_ & (n' & Hname) & _).
      apply match_id_of_inj in Hname as [Htid _]. done.
  - destruct (decide (mid = m)) as [->|Hne].
    + eexists. rewrite lookup_insert_eq. split; [done|]. cbn. congruence.
    + exists mt. by rewrite lookup_insert_ne.
Qed.

Lemma mutation_matches_ok o s s1 :
  mutation o s s1 → ids_ok s → matches_ok s → matches_ok s1.
Proof.
  intros Hmut Hids Hok mid m Hm.
  assert (∀ k x, matches s !! k = Some x → match_ok s1 k x) as Hold.
  { intros k x Hx. destruct (Hok k x Hx) as (Hid & Hname & (t & Ht & Hp1 & Hp2) & Hst).
    destruct (mutation_tournaments o s s1 Hmut Hids _ _ Ht) as (t' & Ht' & _ & _ & _ & Hps).
    split; [done|]. split; [done|]. split; [|done]. exists t'. auto. }
  destruct Hmut; cbn [matches upd_users upd_leagues upd_tournaments
                       upd_advertisements] in Hm;
    rewrite ?with_tournament_matches, ?with_result_matches in Hm; try by apply Hold.
  - rewrite schedule_matches in Hm. cbn [matches upd_tournaments] in Hm.
    apply scheduled_matches_lookup in Hm as [Hm|(i & [a b] & Hp & -> & ->)];
      [by apply Hold|].
    split; [done|]. split; [by eexists|]. split.
    + destruct (mutation_tournaments _ _ _ (mut_start s tid t now H H0) Hids _ _ H)
        as (t' & Ht' & _ & _ & _ & Hps).
      exists t'. split; [exact Ht'|].
      apply list_elem_of_lookup_2 in Hp.
      apply (proj1 (pair_up_elem _)) in Hp as [Ha Hb]. cbn. auto.
    + left. done.
  - apply lookup_insert_Some in Hm as [[<- <-]|[_ Hm]]; [|by apply Hold].
    destruct (Hold _ _ H) as (Hid & Hname & Ht & _).
    split; [done|]. split; [done|]. split; [done|].
    right. cbn. eauto.
Qed.

Lemma tournament_wf_mono o s s1 tid t :
  mutation o s s1 → matches_ok s →
  tournament_wf s tid t → tournament_wf s1 tid t.
Proof.
  intros Hmut Hok (Hid & Hst & Hw & Hc & Hcb & Hps & Hms).
  do 4 (split; [done|]). split; [|split].
  - by apply (mutation_keeps_account o s s1 _ Hmut).
  - intros p Hp. by apply (mutation_keeps_account o s s1 _ Hmut), Hps.
  - intros m (mt & Hmt & Htid)%Hms.
    destruct (mutation_matches o s s1 Hmut Hok _ _ Hmt) as (mt' & Hmt' & Htid').
    exists mt'. split; [done|]. congruence.
Qed.

Lemma with_tournament_tournaments s l n sd mp pp cb now :
  tournaments (with_tournament s l n sd mp pp cb now)
  = <[next_tournament_id s :=
        new_tournament (next_tournament_id s) l n sd mp pp cb now]> (tournaments s).
Proof. unfold with_tournament. by destruct (leagues s !! l). Qed.

Lemma with_result_tournaments s mid mt t w sc now :
  tournaments (with_result s mid mt t w sc now) = tournaments s
  ∨ ∃ w1, first_winner (<[mid := completed_match mt w sc now]> (matches s))
                       (Tournament.matches t) = Some w1
          ∧ tournaments (with_result s mid mt t w sc now)
            = alter (completed_tournament w1) (Match.tournament_id mt) (tournaments s).
Proof.
  unfold with_result. cbn [matches upd_matches].
  case_bool_decide; [|by left].
  destruct (first_winner _ _) as [w1|]; [|by left].
  right. by exists w1.
Qed.

Lemma mutation_tournaments_wf o s s1 :
  mutation o s s1 → user_keys s → matches_ok s →
  tournaments_wf s → tournaments_wf s1.
Proof.
  intros Hmut Hkeys Hok Hwf j t' Ht'.
  pose proof (λ t Ht, tournament_wf_mono o s s1 j t Hmut Hok (Hwf j t Ht)) as Hold.
  destruct Hmut as [s u p n e r now Hfresh | s u usr Hu | s k usr n g d now Hk Hu
                   | s k usr l n sd mp pp now Hk Hu | s k usr tid t Ht Hk Hu Hnin Hroom
                   | s tid t now Ht Hlen | s mid mt t w sc now Hm Ht
                   | s k usr t c co now Hk Hu];
    cbn [tournaments upd_users upd_leagues upd_tournaments
         upd_advertisements] in Ht'; try by apply Hold.
  - rewrite with_tournament_tournaments in Ht'.
    apply lookup_insert_Some in Ht' as [[<- <-]|[_ Ht']]; [|by apply Hold].
    split; [done|]. split; [by left|]. split; [done|]. split; [done|].
    split; [|split].
    + cbn. rewrite (Hkeys _ _ Hu), with_tournament_users. by eexists.
    + intros p Hp. by apply elem_of_nil in Hp.
    + intros m Hmm. by apply elem_of_nil in Hmm.
  - apply lookup_alter_Some in Ht' as [[-> (t0 & Ht0 & ->)]|[_ Ht']]; [|by apply Hold].
    destruct (Hold _ Ht0) as (Hid & Hst & Hw & Hc & Hcb & Hps & Hms).
    split; [done|]. split; [right; by left|]. split; [done|].
    split; [done|]. split; [done|]. split; [|done].
    intros p [Hp| ->%list_elem_of_singleton]%elem_of_app; [by apply Hps|].
    cbn. rewrite (Hkeys _ _ Hu). by eexists.
  - rewrite schedule_tournaments in Ht'. cbn [tournaments upd_tournaments] in Ht'.
    rewrite alter_alter_eq in Ht'.
    apply lookup_alter_Some in Ht' as [[-> (t0 & Ht0 & ->)]|[_ Ht']]; [|by apply Hold].
    destruct (Hold _ Ht0) as (Hid & Hst & Hw & Hc & Hcb & Hps & Hms).
    split; [done|]. split; [do 2 right; by left|]. split; [done|].
    split; [done|]. split; [done|]. split; [done|].
    cbn. intros m [Hmm|Hmm]%elem_of_app; [by apply Hms|].
    apply list_elem_of_fmap in Hmm as (i & -> & Hi).
    apply elem_of_seq in Hi.
    destruct (lookup_lt_is_Some_2 (pair_up (Tournament.participants t)) (i - 1))
      as [p Hp]; [lia|].
    exists (scheduled_match j now i p). split; [|done].
    rewrite schedule_matches. cbn [matches upd_tournaments].
    replace i with (1 + (i - 1)) at 1 2 by lia.
    by apply scheduled_matches_new.
  - destruct (with_result_tournaments s mid mt t w sc now) as [Heq|(w1 & Hw1 & Heq)];
      rewrite Heq in Ht'; [by apply Hold|].
    apply lookup_alter_Some in Ht' as [[<- (t0 & Ht0 & ->)]|[_ Ht']]; [|by apply Hold].
    destruct (Hold _ Ht0) as (Hid & Hst & Hw & Hc & Hcb & Hps & Hms).
    split; [done|]. split; [do 3 right; by left|]. split; [|split; [by eexists|done]].
    intros w' [= <-]. by eapply first_winner_nonempty.
Qed.

Lemma league_ok_mono o s s1 lid l :
  mutation o s s1 → ids_ok s → league_ok s lid l → league_ok s1 lid l.
Proof.
  intros Hmut Hids (Hid & Hown & Hnd & Hts).
  split; [done|]. split; [|split; [done|]].
  - by apply (mutation_keeps_account o s s1 _ Hmut).
  - intros tid (t & Ht & Hl)%Hts.
    destruct (mutation_tournaments o s s1 Hmut Hids _ _ Ht) as (t' & Ht' & _ & Hl' & _).
    exists t'. split; [done|]. congruence.
Qed.

Lemma with_result_leagues s mid mt t w sc now :
  leagues (with_result s mid mt t w sc now) = leagues s.
Proof. unfold with_result. by repeat case_match. Qed.

Lemma with_result_advertisements s mid mt t w sc now :
  advertisements (with_result s mid mt t w sc now) = advertisements s.
Proof. unfold with_result. by repeat case_match. Qed.

Lemma with_tournament_advertisements s l n sd mp pp cb now :
  advertisements (with_tournament s l n sd mp pp cb now) = advertisements s.
Proof. unfold with_tournament. by destruct (leagues s !! l). Qed.

Lemma with_tournament_leagues s l n sd mp pp cb now :
  leagues (with_tournament s l n sd mp pp cb now)
  = match leagues s !! l with
    | Some _ => alter (League.append_tournament (next_tournament_id s)) l (leagues s)
    | None => leagues s
    end.
Proof. unfold with_tournament. by destruct (leagues s !! l). Qed.

Lemma mutation_leagues_ok o s s1 :
  mutation o s s1 → user_keys s → ids_ok s → leagues_ok s → leagues_ok s1.
Proof.
  intros Hmut Hkeys Hids Hok j l' Hl'.
  pose proof (λ l Hl, league_ok_mono o s s1 j l Hmut Hids (Hok j l Hl)) as Hold.
  destruct Hmut as [s u p n e r now Hfresh | s u usr Hu | s k usr n g d now Hk Hu
                   | s k usr l n sd mp pp now Hk Hu | s k usr tid t Ht Hk Hu Hnin Hroom
                   | s tid t now Ht Hlen | s mid mt t w sc now Hm Ht
                   | s k usr t c co now Hk Hu];
    cbn [leagues upd_users upd_leagues upd_tournaments upd_advertisements] in Hl';
    rewrite ?schedule_leagues, ?with_result_leagues in Hl'; try by apply Hold.
  - apply lookup_insert_Some in Hl' as [[<- <-]|[_ Hl']]; [|by apply Hold].
    split; [done|]. split; [|split; [constructor|]].
    + cbn. rewrite (Hkeys _ _ Hu). by eexists.
    + intros tid Htid. by apply elem_of_nil in Htid.
  - rewrite with_tournament_leagues in Hl'.
    destruct (leagues s !! l) as [l0|] eqn:El; [|by apply Hold].
    apply lookup_alter_Some in Hl' as [[-> (l1 & Hl1 & ->)]|[_ Hl']]; [|by apply Hold].
    destruct (Hold _ Hl1) as (Hid & Hown & Hnd & Hts).
    assert (tournaments s !! next_tournament_id s = None) as Hnew
      by (by apply numbered_fresh, Hids).
    split; [done|]. split; [done|]. split.
    + cbn. apply NoDup_app. split; [done|]. split; [|apply NoDup_singleton].
      intros x Hx ->%list_elem_of_singleton.
      destruct (Hok _ _ Hl1) as (_ & _ & _ & Hlisted).
      destruct (Hlisted _ Hx) as (t0 & Ht0 & _). congruence.
    + cbn. intros tid [Htid| ->%list_elem_of_singleton]%elem_of_app; [by apply Hts|].
      eexists. rewrite with_tournament_tournaments, lookup_insert_eq. done.
Qed.

Lemma mutation_ads_ok o s s1 :
  mutation o s s1 → user_keys s → ads_ok s → ads_ok s1.
Proof.
  intros Hmut Hkeys Hok j a' Ha'.
  assert (∀ a, advertisements s !! j = Some a →
               Advertisement.ad_id a = j ∧ Advertisement.active a = true
               ∧ is_Some (users s1 !! Advertisement.advertiser a)) as Hold.
  { intros a (Hid & Hact & Hadv)%Hok. do 2 (split; [done|]).
    by apply (mutation_keeps_account o s s1 _ Hmut). }
  destruct Hmut as [s u p n e r now Hfresh | s u usr Hu | s k usr n g d now Hk Hu
                   | s k usr l n sd mp pp now Hk Hu | s k usr tid t Ht Hk Hu Hnin Hroom
                   | s tid t now Ht Hlen | s mid mt t w sc now Hm Ht
                   | s k usr t c co now Hk Hu];
    cbn [advertisements upd_users upd_leagues upd_tournaments upd_advertisements] in Ha';
    rewrite ?schedule_advertisements, ?with_result_advertisements,
      ?with_tournament_advertisements in Ha'; try by apply Hold.
  apply lookup_insert_Some in Ha' as [[<- <-]|[_ Ha']]; [|by apply Hold].
  do 2 (split; [done|]). cbn. rewrite (Hkeys _ _ Hu). by eexists.
Qed.

Lemma mutation_wf o s s1 : mutation o s s1 → wf s → wf s1.
Proof.
  intros Hmut [Hkeys Hses Hids Hms Hts Hls Has]. split.
  - by eapply mutation_user_keys.
  - by eapply mutation_session.
  - by eapply mutation_ids.
  - by eapply mutation_matches_ok.
  - by eapply mutation_tournaments_wf.
  - by eapply mutation_leagues_ok.
  - by eapply mutation_ads_ok.
Qed.

(** ** Every reachable store is well-formed and in step with its file *)

Lemma wf_first_run f : wf (mkArena {["admin" := default_admin]} ∅ ∅ ∅ ∅ None f).
Proof.
  assert (∀ A (prefix : string), numbered prefix (∅ : gmap string A)) as Hnum.
  { intros A prefix k. rewrite lookup_empty, map_size_empty. split.
    - by intros [? [=]].
    - intros (i & Hi & _). lia. }
  split.
  - intros k u Hu. cbn in Hu. by apply lookup_singleton_Some in Hu as [<- <-].
  - intros k [=].
  - repeat split; apply Hnum.
  - intros mid m [=].
  - intros tid t [=].
  - intros lid l [=].
  - intros aid a [=].
Qed.

Lemma wf_same s s' :
  users s' = users s → leagues s' = leagues s → tournaments s' = tournaments s →
  matches s' = matches s → advertisements s' = advertisements s →
  (∀ k, current_user s' = Some k → current_user s = Some k) →
  wf s → wf s'.
Proof.
  destruct s, s'. cbn. intros -> -> -> -> -> Hcu [Hkeys Hses Hids Hms Hts Hls Has].
  split; try done. intros k Hk. by apply Hses, Hcu.
Qed.

Lemma step_wf o s : wf s → wf (step o s).
Proof.
  intros Hwf.
  destruct (step_behaves o s)
    as [|u p usr -> Hu Hp Ha|s1 Hmut| | | |mid w sc now mt -> Hm Ht]; try done.
  - destruct Hwf as [Hkeys Hses Hids Hms Hts Hls Has]. split; try done.
    intros k [= <-]. eauto.
  - apply (wf_same s1); try done. by eapply mutation_wf.
  - destruct (wf_matches s Hwf _ _ Hm) as (_ & _ & (t & Ht' & _) & _). congruence.
Qed.

Lemma step_sound o s : sound s → sound (step o s).
Proof.
  intros [Hwf Hsync]. split; [by apply step_wf|].
  destruct (step_behaves o s)
    as [|u p usr -> Hu Hp Ha|s1 Hmut| | | |mid w sc now mt -> Hm Ht]; try done.
  destruct (wf_matches s Hwf _ _ Hm) as (_ & _ & (t & Ht' & _) & _). congruence.
Qed.

Lemma init_sound s s' :
  is_Some (users s !! "admin") → sound s →
  __init__ (data_file s) = Some s' → sound s'.
Proof.
  intros Hadm [Hwf Hsync] Hinit. unfold file_sync in Hsync.
  destruct (data_file s) as [| |d] eqn:Hf.
  - rewrite init_no_document in Hinit by auto. injection Hinit as <-.
    split; [apply wf_first_run|]. by cbn.
  - rewrite init_no_document in Hinit by auto. injection Hinit as <-.
    split; [apply wf_first_run|]. by cbn.
  - subst d. rewrite init_dump in Hinit by done. injection Hinit as <-. split.
    + by apply (wf_same s).
    + by cbn.
Qed.

Lemma reachable_sound s : reachable s → sound s.
Proof.
  induction 1 as [f s [->| ->] Hinit|o s _ IH|s s' Hs IH Hinit].
  - rewrite init_no_document in Hinit by auto. injection Hinit as <-.
    split; [apply wf_first_run|]. by cbn.
  - rewrite init_no_document in Hinit by auto. injection Hinit as <-.
    split; [apply wf_first_run|]. by cbn.
  - by apply step_sound.
  - eapply init_sound; [|exact IH|exact Hinit].
    by apply reachable_inv in Hs as [[Hadm _] _].
Qed.

(** ** Consequences for the user *)



(** X2: in a reachable state a call raises only in two cases: a call that
    stamps or reads the current user, made while nobody is logged in,
    raises [TypeError]; [approve_user] for a username that is not stored
    raises [KeyError]. In both cases the store and the file are left as
    they were. In particular [start_tournament] and [record_match_result]
    never raise, and no lookup of a match's tournament fails. *)
Theorem faults_in_reachable_states o s e :
  reachable s →
  fault o s = Some e →
  step o s = s
  ∧ ((e = TypeError ∧ needs_user o = true ∧ current_user s = None)
     ∨ (e = KeyError ∧ ∃ u, o = ApproveUser u ∧ users s !! u = None)).
Proof.
  intros Hs Hf. apply reachable_sound in Hs as [Hwf _].
  pose proof (step_behaves o s) as Hb. rewrite Hf in Hb.
  remember (step o s) as s' eqn:Hs'. clear Hs'.
  inversion Hb as [| | |Hneeds Hnone|k Hneeds Hk Hu|u Ho Hu|mid w sc now mt Ho Hm Ht];
    subst.
  - split; [done|]. by left.
  - destruct (wf_session _ Hwf k Hk) as (usr & Husr & _). congruence.
  - split; [done|]. right. eauto.
  - destruct (wf_matches _ Hwf _ _ Hm) as (_ & _ & (t & Ht' & _) & _). congruence.
Qed.

Lemma faults_in_reachable_states_witness :
  step (CreateAdvertisement "Boards" "Buy a board" sample_cost "t1") first_run = first_run
  ∧ fault (StartTournament "TOUR_1" (clock "t6")) cup_of_three = None.
Proof.
  split.
  - apply (faults_in_reachable_states
             (CreateAdvertisement "Boards" "Buy a board" sample_cost "t1") first_run TypeError).
    + apply first_run_reachable.
    + reflexivity.
  - vm_compute. reflexivity.
Defined.

(** X3: in a reachable state with a user logged in, [create_league],
    [create_tournament] and [create_advertisement] return an id that is not
    in use ([LEAGUE_n], [TOUR_n], [AD_n] for the count plus one), store the
    new record under it without touching the others, and stamp it with the
    username of the logged-in account. *)
Theorem created_ids_are_fresh s k name game_type description league_id
    start_date max_players prize_pool title content cost now :
  reachable s →
  current_user s = Some k →
  (let i := "LEAGUE_" +:+ pretty (size (leagues s) + 1) in
   ∃ s', create_league name game_type description now s = (Ok i, s')
         ∧ leagues s !! i = None
         ∧ leagues s'
           = <[i := League.mk i name game_type description k now []]> (leagues s))
  ∧ (let i := "TOUR_" +:+ pretty (size (tournaments s) + 1) in
     ∃ s', create_tournament league_id name start_date max_players prize_pool now s
           = (Ok i, s')
           ∧ tournaments s !! i = None
           ∧ tournaments s'
             = <[i := Tournament.mk i league_id name start_date max_players
                        prize_pool "Announced" [] [] None k now]> (tournaments s))
  ∧ (let i := "AD_" +:+ pretty (size (advertisements s) + 1) in
     ∃ s', create_advertisement title content cost now s = (Ok i, s')
           ∧ advertisements s !! i = None
           ∧ advertisements s'
             = <[i := Advertisement.mk i title content cost k now true]>
                 (advertisements s)).
Proof.
  intros Hs Hk. apply reachable_sound in Hs as [Hwf _].
  destruct (wf_session s Hwf k Hk) as (usr & Hu & _).
  pose proof (wf_user_keys s Hwf k usr Hu) as Hname.
  destruct (wf_ids s Hwf) as (Hl & Ht & Ha).
  split; [|split]; cbv zeta; eexists.
  - split; [by apply (create_league_as s k usr)|]. cbv zeta. cbn [leagues].
    split; [by apply numbered_fresh|]. cbn. by rewrite Hname.
  - split; [by apply (create_tournament_as s k usr)|]. cbv zeta.
    split; [by apply numbered_fresh|].
    destruct (leagues s !! league_id); cbn; by rewrite Hname.
  - split; [by apply (create_advertisement_as s k usr)|]. cbv zeta.
    split; [by apply numbered_fresh|]. cbn. by rewrite Hname.
Qed.

Lemma created_ids_are_fresh_witness :
  ∃ s', create_league "Go" "Board" "Monthly go" "t8" cup_of_two = (Ok "LEAGUE_2", s')
        ∧ leagues cup_of_two !! "LEAGUE_2" = None
        ∧ leagues s'
          = <["LEAGUE_2" := League.mk "LEAGUE_2" "Go" "Board" "Monthly go" "bob" "t8" []]>
              (leagues cup_of_two).
Proof.
  refine (proj1 (created_ids_are_fresh cup_of_two "bob" "Go" "Board" "Monthly go"
                   "LEAGUE_1" "2024-02-01" 4 "50" "Boards" "Buy a board" sample_cost "t8" _ eq_refl)).
  apply steps_reachable, steps_reachable, first_run_reachable.
Defined.

Lemma mutation_keeps_keys o s s1 :
  mutation o s s1 →
  (∀ k, is_Some (leagues s !! k) → is_Some (leagues s1 !! k))
  ∧ (∀ k, is_Some (tournaments s !! k) → is_Some (tournaments s1 !! k))
  ∧ (∀ k, is_Some (matches s !! k) → is_Some (matches s1 !! k))
  ∧ (∀ k, is_Some (advertisements s !! k) → is_Some (advertisements s1 !! k)).
Proof.
  intros Hmut.
  destruct Hmut as [s u p n e r now Hfresh | s u usr Hu | s k usr n g d now Hk Hu
                   | s k usr l n sd mp pp now Hk Hu | s k usr tid t Ht Hk Hu Hnin Hroom
                   | s tid t now Ht Hlen | s mid mt t w sc now Hm Ht
                   | s k usr t c co now Hk Hu];
    cbn [leagues tournaments matches advertisements
         upd_users upd_leagues upd_tournaments upd_advertisements];
    rewrite ?schedule_leagues, ?schedule_advertisements, ?schedule_matches,
      ?schedule_tournaments, ?with_result_leagues, ?with_result_advertisements,
      ?with_result_matches, ?with_tournament_advertisements,
      ?with_tournament_matches, ?with_tournament_tournaments,
      ?with_tournament_leagues;
    cbn [leagues tournaments matches advertisements upd_tournaments];
    repeat split; try done; intros j Hj;
    rewrite ?lookup_insert_is_Some', ?lookup_alter_is_Some; auto.
  - destruct (leagues s !! l); by rewrite ?lookup_alter_is_Some.
  - by apply scheduled_matches_is_Some.
  - destruct (with_result_tournaments s mid mt t w sc now) as [->|(w1 & _ & ->)];
      by rewrite ?lookup_alter_is_Some.
Qed.

(** X4: no call deletes anything: whatever the state, every key of the
    five collections is still a key after the call, whether the call
    succeeded, was refused or raised. *)
Theorem nothing_is_removed o s :
  (∀ k, is_Some (users s !! k) → is_Some (users (step o s) !! k))
  ∧ (∀ k, is_Some (leagues s !! k) → is_Some (leagues (step o s) !! k))
  ∧ (∀ k, is_Some (tournaments s !! k) → is_Some (tournaments (step o s) !! k))
  ∧ (∀ k, is_Some (matches s !! k) → is_Some (matches (step o s) !! k))
  ∧ (∀ k, is_Some (advertisements s !! k)
          → is_Some (advertisements (step o s) !! k)).
Proof.
  destruct (step_behaves o s)
    as [|u p usr -> Hu Hp Ha|s1 Hmut| | | |mid w sc now mt -> Hm Ht]; try done.
  - split; [intros k; by apply (mutation_keeps_account o s s1 k Hmut)|].
    by apply (mutation_keeps_keys o s s1).
  - cbn. repeat split; try done. intros k Hk. rewrite lookup_insert_is_Some'. by right.
Qed.

(** X5: across any sequence of calls an account keeps its username,
    password, name, email, role and registration date: its record changes
    at most by [approved] going from false to true, and an approved account
    stays exactly as it is. *)
Theorem accounts_only_get_approved (os : list op) s u usr :
  users s !! u = Some usr →
  (users (steps os s) !! u = Some usr
   ∨ users (steps os s) !! u = Some (User.set_approved true usr))
  ∧ (User.approved usr = true → users (steps os s) !! u = Some usr).
Proof.
  intros Hu. split.
  - by apply steps_user_cases.
  - intros Hap. by apply steps_keeps_approved.
Qed.

Lemma accounts_only_get_approved_witness :
  users (steps sample_other_calls cup_of_two) !! "bob"
  = users cup_of_two !! "bob".
Proof.
  destruct (accounts_only_get_approved sample_other_calls cup_of_two "bob"
              (User.mk "bob" "pw2" "Bob" "bob@arena.com" "Player" true (Some "t2"))
              eq_refl) as [_ H].
  rewrite H; reflexivity.
Defined.

(** X6: approving an account a second time changes nothing: after
    [approve_user] on a stored username, a second [approve_user] on it
    leaves the store and the file exactly as the first one left them. *)
Theorem approve_user_twice s u usr :
  users s !! u = Some usr →
  approve_user u (approve_user u s).2 = (Ok tt, (approve_user u s).2).
Proof.
  intros Hu. unfold approve_user at 2 3. unfold_M. rewrite Hu. cbn [snd].
  unfold approve_user. unfold_M. cbn [users upd_users set_data_file].
  rewrite lookup_alter_eq, Hu. cbn [fmap option_fmap option_map].
  f_equal. unfold set_data_file, upd_users, dump. cbn.
  rewrite alter_alter_eq.
  assert (alter (User.set_approved true ∘ User.set_approved true) u (users s)
          = alter (User.set_approved true) u (users s)) as ->; [|done].
  apply alter_ext. intros x _. by destruct x.
Qed.

Lemma approve_user_twice_witness :
  approve_user "alice" (approve_user "alice" cup_of_two).2
  = (Ok tt, (approve_user "alice" cup_of_two).2).
Proof.
  apply (approve_user_twice cup_of_two "alice"
           (User.mk "alice" "pw1" "Alice" "alice@arena.com" "Player" true (Some "t1"))).
  reflexivity.
Defined.

(** X7: an accepted [apply_for_tournament] appends the current user's
    username to the participants and sets the status to "Open for
    Registration" whatever it was before, leaving the winner and the match
    list alone: the status of the tournament is not checked, so a started
    or completed tournament is opened again. A second application by the
    same user is then refused with "Already registered for this
    tournament" and changes nothing. *)
Theorem apply_then_apply_again s tournament_id t k usr :
  tournaments s !! tournament_id = Some t →
  current_user s = Some k → users s !! k = Some usr →
  User.username usr ∉ Tournament.participants t →
  (Z.of_nat (length (Tournament.participants t)) < Tournament.max_players t)%Z →
  ∃ s' t',
    apply_for_tournament tournament_id s
    = (Ok (true, "Application submitted successfully"), s')
    ∧ tournaments s' !! tournament_id = Some t'
    ∧ Tournament.participants t' = Tournament.participants t ++ [User.username usr]
    ∧ Tournament.status t' = "Open for Registration"
    ∧ Tournament.winner t' = Tournament.winner t
    ∧ Tournament.matches t' = Tournament.matches t
    ∧ apply_for_tournament tournament_id s'
      = (Ok (false, "Already registered for this tournament"), s').
Proof.
  intros Ht Hk Hu Hnin Hroom.
  eexists _, (joined (User.username usr) t). split.
  { unfold apply_for_tournament. unfold_M. rewrite Ht, Hk, Hu.
    rewrite bool_decide_eq_false_2 by done.
    destruct (Z.geb_spec (Z.of_nat (length (Tournament.participants t)))
                (Tournament.max_players t)); [lia|]. reflexivity. }
  cbn [tournaments set_data_file upd_tournaments].
  rewrite lookup_alter_eq, Ht. split; [done|]. do 4 (split; [done|]).
  apply (apply_for_tournament_refuses _ tournament_id
           (joined (User.username usr) t) k usr).
  - cbn. by rewrite lookup_alter_eq, Ht.
  - exact Hk.
  - exact Hu.
  - cbn. apply elem_of_app. right. by left.
Qed.

Lemma apply_then_apply_again_witness :
  Tournament.status <$> tournaments cup_won_by_alice !! "TOUR_1" = Some "Completed"
  ∧ ∃ s' t',
      apply_for_tournament "TOUR_1" (step (Login "carol" "pw3") cup_won_by_alice)
      = (Ok (true, "Application submitted successfully"), s')
      ∧ tournaments s' !! "TOUR_1" = Some t'
      ∧ Tournament.participants t' = ["alice"; "bob"; "carol"]
      ∧ Tournament.status t' = "Open for Registration"
      ∧ Tournament.winner t' = Some "alice"
      ∧ Tournament.matches t' = ["TOUR_1_MATCH_1"]
      ∧ apply_for_tournament "TOUR_1" s'
        = (Ok (false, "Already registered for this tournament"), s').
Proof.
  split; [vm_compute; reflexivity|].
  apply (apply_then_apply_again (step (Login "carol" "pw3") cup_won_by_alice) "TOUR_1"
           (Tournament.mk "TOUR_1" "LEAGUE_1" "Cup" "2024-01-01" 8 "100" "Completed"
              ["alice"; "bob"] ["TOUR_1_MATCH_1"] (Some "alice") "admin" "t5")
           "carol"
           (User.mk "carol" "pw3" "Carol" "carol@arena.com" "Player" true (Some "t3"))).
  - vm_compute. reflexivity.
  - vm_compute. reflexivity.
  - vm_compute. reflexivity.
  - apply (bool_decide_unpack _). vm_compute. reflexivity.
  - cbn. lia.
Defined.

(** X8: in every reachable state a stored match is either Scheduled, with
    no winner and no completion date, or Completed, with both: the status
    Live is never set. A stored tournament has one of the statuses
    Announced, Open for Registration, In Progress and Completed, never
    Archived; its winner, if it has one, is not the empty string, and a
    Completed tournament has a winner. *)
Theorem statuses_in_reachable_states s :
  reachable s →
  (∀ mid m, matches s !! mid = Some m →
     (Match.status m = "Scheduled"
      ∧ Match.winner m = None ∧ Match.completed_date m = None)
     ∨ (Match.status m = "Completed"
        ∧ is_Some (Match.winner m) ∧ is_Some (Match.completed_date m)))
  ∧ (∀ tid t, tournaments s !! tid = Some t →
       Tournament.status t
         ∈ ["Announced"; "Open for Registration"; "In Progress"; "Completed"]
       ∧ (∀ w, Tournament.winner t = Some w → w ≠ "")
       ∧ (Tournament.status t = "Completed" → is_Some (Tournament.winner t))).
Proof.
  intros Hs. apply reachable_sound in Hs as [Hwf _]. split.
  - intros mid m Hm. by destruct (wf_matches s Hwf _ _ Hm) as (_ & _ & _ & Hst).
  - intros tid t Ht.
    by destruct (wf_tournaments s Hwf _ _ Ht) as (_ & Hst & Hw & Hc & _).
Qed.

Lemma statuses_in_reachable_states_witness :
  (∀ mid m, matches cup_reopened !! mid = Some m →
     (Match.status m = "Scheduled"
      ∧ Match.winner m = None ∧ Match.completed_date m = None)
     ∨ (Match.status m = "Completed"
        ∧ is_Some (Match.winner m) ∧ is_Some (Match.completed_date m)))
  ∧ Tournament.status <$> tournaments cup_reopened !! "TOUR_1"
    = Some "Open for Registration".
Proof.
  split; [|vm_compute; reflexivity].
  apply (statuses_in_reachable_states cup_reopened).
  apply steps_reachable, reachable_step, reachable_step, steps_reachable,
    steps_reachable, first_run_reachable.
Defined.

(** X9: [start_tournament] does not look at the status or at the matches
    already stored. Whatever the state, with two participants or more it
    stores, for each pair of the bracket, a fresh Scheduled match with no
    winner under the id numbered from 1, in place of any match, played or
    not, that had this id; every other match, those of the same tournament
    with a higher number included, and every other tournament is left as it
    was. The tournament goes (back) to "In Progress", keeps its winner, and
    the ids are appended to its match list, again if they were listed. *)
Theorem start_tournament_resets_bracket s tournament_id t now :
  tournaments s !! tournament_id = Some t →
  2 ≤ length (Tournament.participants t) →
  ∃ s' t',
    start_tournament tournament_id now s
    = (Ok (true, "Tournament started successfully"), s')
    ∧ (∀ i p, pair_up (Tournament.participants t) !! i = Some p →
         matches s' !! (tournament_id +:+ "_MATCH_" +:+ pretty (1 + i))
         = Some (Match.mk (tournament_id +:+ "_MATCH_" +:+ pretty (1 + i))
                   tournament_id p.1 p.2 "Scheduled" None "" (now (1 + i)) None))
    ∧ (∀ k, (∀ i : nat, i < length (pair_up (Tournament.participants t)) →
               k ≠ tournament_id +:+ "_MATCH_" +:+ pretty (1 + i)) →
         matches s' !! k = matches s !! k)
    ∧ (∀ k, k ≠ tournament_id → tournaments s' !! k = tournaments s !! k)
    ∧ tournaments s' !! tournament_id = Some t'
    ∧ Tournament.status t' = "In Progress"
    ∧ Tournament.winner t' = Tournament.winner t
    ∧ Tournament.participants t' = Tournament.participants t
    ∧ Tournament.matches t'
      = Tournament.matches t
        ++ ((λ i : nat, tournament_id +:+ "_MATCH_" +:+ pretty i)
              <$> seq 1 (length (pair_up (Tournament.participants t)))).
Proof.
  intros Ht Hlen. eexists _, _.
  split; [by apply start_tournament_started|].
  cbv zeta. cbn [matches tournaments set_data_file].
  rewrite schedule_matches, schedule_tournaments.
  cbn [matches tournaments upd_tournaments].
  split; [|split; [|split]].
  - intros i p Hp. by apply (scheduled_matches_new tournament_id now _ 1).
  - intros k Hk. by apply scheduled_matches_frame.
  - intros k Hk. by rewrite !lookup_alter_ne.
  - rewrite alter_alter_eq, lookup_alter_eq, Ht. cbn. done.
Qed.

Lemma start_tournament_resets_bracket_witness :
  matches cup_won_by_alice !! "TOUR_1_MATCH_1"
  = Some (Match.mk "TOUR_1_MATCH_1" "TOUR_1" "alice" "bob" "Completed"
                   (Some "alice") "2-0" "t6" (Some "t7"))
  ∧ ∃ s' t',
      start_tournament "TOUR_1" (clock "t9") cup_won_by_alice
      = (Ok (true, "Tournament started successfully"), s')
      ∧ matches s' !! "TOUR_1_MATCH_1"
        = Some (Match.mk "TOUR_1_MATCH_1" "TOUR_1" "alice" "bob" "Scheduled"
                         None "" "t9" None)
      ∧ tournaments s' !! "TOUR_1" = Some t'
      ∧ Tournament.status t' = "In Progress"
      ∧ Tournament.winner t' = Some "alice"
      ∧ Tournament.matches t' = ["TOUR_1_MATCH_1"; "TOUR_1_MATCH_1"].
Proof.
  split; [vm_compute; reflexivity|].
  destruct (start_tournament_resets_bracket cup_won_by_alice "TOUR_1"
              (Tournament.mk "TOUR_1" "LEAGUE_1" "Cup" "2024-01-01" 8 "100" "Completed"
                 ["alice"; "bob"] ["TOUR_1_MATCH_1"] (Some "alice") "admin" "t5")
              (clock "t9") eq_refl)
    as (s' & t' & Hrun & Hnew & _ & _ & Ht' & Hst & Hw & _ & Hms); [cbn; lia|].
  assert ("TOUR_1" +:+ "_MATCH_" +:+ pretty (1 + 0) = "TOUR_1_MATCH_1") as Hid
    by (vm_compute; reflexivity).
  pose proof (Hnew 0 ("alice", "bob") eq_refl) as Hm. rewrite Hid in Hm.
  exists s', t'. split; [exact Hrun|]. split; [exact Hm|].
  split; [exact Ht'|]. split; [exact Hst|]. split; [exact Hw|].
  rewrite Hms. vm_compute. reflexivity.
Defined.

(** X10: in every reachable state a stored match carries its own key as
    [match_id], the key is the id of its tournament followed by [_MATCH_]
    and a number, the tournament is stored, and both players are
    participants of that tournament and stored accounts. So a match
    against ["BYE"] exists only if an account named ["BYE"] applied. *)
Theorem matches_oppose_participants s mid m :
  reachable s →
  matches s !! mid = Some m →
  Match.match_id m = mid
  ∧ (∃ n : nat, mid = Match.tournament_id m +:+ "_MATCH_" +:+ pretty n)
  ∧ (∃ t, tournaments s !! Match.tournament_id m = Some t
          ∧ Match.player1 m ∈ Tournament.participants t
          ∧ Match.player2 m ∈ Tournament.participants t)
  ∧ is_Some (users s !! Match.player1 m)
  ∧ is_Some (users s !! Match.player2 m)
  ∧ (users s !! "BYE" = None → Match.player2 m ≠ "BYE").
Proof.
  intros Hs Hm. apply reachable_sound in Hs as [Hwf _].
  destruct (wf_matches s Hwf _ _ Hm) as (Hid & Hname & (t & Ht & Hp1 & Hp2) & _).
  destruct (wf_tournaments s Hwf _ _ Ht) as (_ & _ & _ & _ & _ & Hps & _).
  split; [done|]. split; [done|]. split; [by exists t|].
  split; [by apply Hps|]. split; [by apply Hps|].
  intros Hbye Heq. rewrite Heq in Hp2. apply Hps in Hp2 as [x Hx]. congruence.
Qed.

Lemma matches_oppose_participants_witness :
  ∃ m, matches cup_of_two_started !! "TOUR_1_MATCH_1" = Some m
       ∧ Match.player1 m = "alice" ∧ Match.player2 m = "bob"
       ∧ is_Some (users cup_of_two_started !! Match.player1 m)
       ∧ is_Some (users cup_of_two_started !! Match.player2 m).
Proof.
  eexists. split; [vm_compute; reflexivity|]. split; [reflexivity|].
  split; [reflexivity|].
  refine (let H := matches_oppose_participants cup_of_two_started "TOUR_1_MATCH_1" _ _ eq_refl
          in conj (proj1 (proj2 (proj2 (proj2 H))))
                  (proj1 (proj2 (proj2 (proj2 (proj2 H)))))).
  apply reachable_step, steps_reachable, steps_reachable, first_run_reachable.
Defined.

(** X11: in every reachable state, whether somebody is logged in or not,
    a stored league carries its own key as [league_id], its owner is a
    stored account, and the tournaments it lists are pairwise distinct
    stored tournaments that name this league. The converse is not kept:
    for a logged-in user, [create_tournament] with a [league_id] that is
    not stored saves the tournament all the same, under that [league_id],
    and no league lists it. *)
Theorem leagues_list_their_tournaments s :
  reachable s →
  (∀ lid l, leagues s !! lid = Some l →
     League.league_id l = lid
     ∧ is_Some (users s !! League.owner l)
     ∧ NoDup (League.tournaments l)
     ∧ ∀ tid, tid ∈ League.tournaments l →
         ∃ t, tournaments s !! tid = Some t
              ∧ Tournament.tournament_id t = tid
              ∧ Tournament.league_id t = lid)
  ∧ (∀ k league_id name start_date max_players prize_pool now,
       current_user s = Some k →
       leagues s !! league_id = None →
       ∃ i s' t,
         create_tournament league_id name start_date max_players prize_pool now s
         = (Ok i, s')
         ∧ tournaments s' !! i = Some t
         ∧ Tournament.league_id t = league_id
         ∧ leagues s' = leagues s
         ∧ ∀ lid l, leagues s' !! lid = Some l → i ∉ League.tournaments l).
Proof.
  intros Hs. pose proof (reachable_sound s Hs) as [Hwf _]. split.
  - intros lid l Hl.
    destruct (wf_leagues s Hwf _ _ Hl) as (Hid & Hown & Hnd & Hts).
    do 3 (split; [done|]). intros tid (t & Ht & Hlid)%Hts.
    exists t. split; [done|]. split; [|done].
    by destruct (wf_tournaments s Hwf _ _ Ht) as (Htid & _).
  - intros k league_id name start_date max_players prize_pool now Hk Hnone.
    destruct (wf_session s Hwf k Hk) as (usr & Hu & _).
    destruct (wf_ids s Hwf) as (_ & Hnum & _).
    eexists _, _, _. split; [by apply (create_tournament_as s k usr)|].
    cbv zeta. rewrite Hnone. cbn [tournaments leagues set_data_file upd_tournaments].
    rewrite lookup_insert_eq. do 3 (split; [done|]).
    intros lid l Hl Hin.
    destruct (wf_leagues s Hwf _ _ Hl) as (_ & _ & _ & Hts).
    destruct (Hts _ Hin) as (t & Ht & _).
    by rewrite (numbered_fresh "TOUR_" (tournaments s) Hnum) in Ht.
Qed.

Lemma leagues_list_their_tournaments_witness :
  (∃ l, leagues cup_of_two !! "LEAGUE_1" = Some l
        ∧ League.tournaments l = ["TOUR_1"]
        ∧ ∃ t, tournaments cup_of_two !! "TOUR_1" = Some t
               ∧ Tournament.league_id t = "LEAGUE_1")
  ∧ ∃ i s' t,
      create_tournament "LEAGUE_7" "Open" "2024-02-01" 4 "50" "t9" cup_of_two
      = (Ok i, s')
      ∧ tournaments s' !! i = Some t
      ∧ Tournament.league_id t = "LEAGUE_7"
      ∧ leagues s' = leagues cup_of_two
      ∧ ∀ lid l, leagues s' !! lid = Some l → i ∉ League.tournaments l.
Proof.
  destruct (leagues_list_their_tournaments cup_of_two) as [Hkept Hnot].
  { apply steps_reachable, steps_reachable, first_run_reachable. }
  split.
  - exists (League.mk "LEAGUE_1" "Chess" "Board" "Weekly chess" "admin" "t4" ["TOUR_1"]).
    split; [vm_compute; reflexivity|]. split; [reflexivity|].
    destruct (Hkept "LEAGUE_1"
                (League.mk "LEAGUE_1" "Chess" "Board" "Weekly chess" "admin" "t4"
                           ["TOUR_1"]))
      as (_ & _ & _ & Hts); [vm_compute; reflexivity|].
    destruct (Hts "TOUR_1") as (t & Ht & _ & Hlid); [by left|].
    exists t. split; [exact Ht|exact Hlid].
  - apply (Hnot "bob"); vm_compute; reflexivity.
Defined.

Lemma step_current_user o s :
  current_user (step o s) = current_user s
  ∨ ∃ u p, o = Login u p ∧ current_user (step o s) = Some u.
Proof.
  destruct (step_behaves o s)
    as [|u p usr -> Hu Hp Ha|s1 Hmut| | | |mid w sc now mt -> Hm Ht];
    try by left.
  - right. by exists u, p.
  - left. by apply (mutation_current_user o s s1).
Qed.

(** X12: in every reachable state the current user, if there is one, is a
    stored account, stored under its own username and approved. No call
    ever clears the current user: a call leaves it as it is, unless it is
    a [login] that succeeds. *)
Theorem current_user_is_an_approved_account s k o :
  reachable s →
  current_user s = Some k →
  (∃ u, users s !! k = Some u ∧ User.username u = k ∧ User.approved u = true)
  ∧ (current_user (step o s) = Some k
     ∨ ∃ u p, o = Login u p ∧ current_user (step o s) = Some u).
Proof.
  intros Hs Hk. apply reachable_sound in Hs as [Hwf _]. split.
  - destruct (wf_session s Hwf k Hk) as (u & Hu & Hap).
    exists u. split; [done|]. split; [|done]. by apply (wf_user_keys s Hwf).
  - destruct (step_current_user o s) as [->|H]; [by left|by right].
Qed.

Lemma current_user_is_an_approved_account_witness :
  ∃ u, users cup_of_two !! "bob" = Some u
       ∧ User.username u = "bob" ∧ User.approved u = true.
Proof.
  refine (proj1 (current_user_is_an_approved_account cup_of_two "bob"
                   (ApproveUser "nobody") _ eq_refl)).
  apply steps_reachable, steps_reachable, first_run_reachable.
Defined.

(** ** Player statistics *)

Lemma count_player_lookup m stats q p :
  count_player m stats q !! p
  = if bool_decide (p = q ∧ q ≠ "BYE")
    then add_counts (stats !! p)
           (if bool_decide (Match.winner m = Some q) then 1 else 0) 1
    else stats !! p.
Proof.
  unfold count_player. cbv zeta.
  destruct (decide (q = "BYE")) as [->|Hq].
  - rewrite (bool_decide_eq_false_2 ("BYE" ≠ "BYE")) by (by intros []). cbn.
    rewrite (bool_decide_eq_false_2 (p = "BYE" ∧ "BYE" ≠ "BYE")); [done|].
    by intros [_ []].
  - rewrite (bool_decide_eq_true_2 (q ≠ "BYE")) by done. cbn [andb].
    destruct (decide (p = q)) as [->|Hpq].
    + rewrite (bool_decide_eq_true_2 (q = q ∧ q ≠ "BYE")) by done.
      unfold add_counts. cbn.
      destruct (stats !! q) as [st|] eqn:E.
      * rewrite (bool_decide_eq_false_2 (Some st = None)) by done.
        case_bool_decide; rewrite ?lookup_alter_eq, ?E; cbn;
          unfold PlayerStats.add_win, PlayerStats.add_match; cbn; do 2 f_equal; lia.
      * rewrite (bool_decide_eq_true_2 (None = None)) by done.
        case_bool_decide; rewrite ?lookup_alter_eq, ?lookup_insert_eq; cbn; done.
    + rewrite (bool_decide_eq_false_2 (p = q ∧ _)) by (by intros [? _]).
      repeat case_bool_decide;
        rewrite ?lookup_alter_ne, ?lookup_insert_ne by done; done.
Qed.

Lemma add_counts_add o a b c d :
  a ≤ b → c ≤ d →
  add_counts (add_counts o a b) c d = add_counts o (a + c) (b + d).
Proof.
  intros Hab Hcd. unfold add_counts.
  destruct (decide (b = 0)) as [->|Hb].
  - assert (a = 0) as -> by lia. cbn [Nat.add].
    by rewrite (bool_decide_eq_true_2 (0 = 0)) by done.
  - rewrite (bool_decide_eq_false_2 (b = 0)) by done.
    rewrite (bool_decide_eq_false_2 (b + d = 0)) by lia.
    case_bool_decide.
    + assert (c = 0) as -> by lia. subst d. by rewrite !Nat.add_0_r.
    + cbn. do 2 f_equal; lia.
Qed.

Lemma victory_le_places p m :
  (if bool_decide (Match.winner m = Some p) then places p m else 0) ≤ places p m.
Proof. case_bool_decide; lia. Qed.

Lemma victories_le_appearances p ms : victories p ms ≤ appearances p ms.
Proof.
  unfold victories, appearances. induction ms as [|m ms IH]; [done|].
  rewrite !fmap_cons. cbn [sum_list sum_list_with id]. cbv beta.
  pose proof (victory_le_places p m). lia.
Qed.

Lemma count_pair_lookup m stats p :
  foldl (count_player m) stats [Match.player1 m; Match.player2 m] !! p
  = if bool_decide (p ≠ "BYE")
    then add_counts (stats !! p)
           (if bool_decide (Match.winner m = Some p) then places p m else 0)
           (places p m)
    else stats !! p.
Proof.
  cbn [foldl]. rewrite !count_player_lookup. unfold places.
  destruct (decide (p = "BYE")) as [->|Hp].
  - rewrite (bool_decide_eq_false_2 ("BYE" ≠ "BYE")) by (by intros []).
    rewrite (bool_decide_eq_false_2 ("BYE" = Match.player2 m ∧ _))
      by (intros [? ?]; congruence).
    rewrite (bool_decide_eq_false_2 ("BYE" = Match.player1 m ∧ _))
      by (intros [? ?]; congruence).
    done.
  - rewrite (bool_decide_eq_true_2 (p ≠ "BYE")) by done.
    destruct (decide (Match.player1 m = p)) as [H1|H1];
      destruct (decide (Match.player2 m = p)) as [H2|H2];
      rewrite ?(bool_decide_eq_true_2 (Match.player1 m = p)),
        ?(bool_decide_eq_true_2 (Match.player2 m = p)),
        ?(bool_decide_eq_false_2 (Match.player1 m = p)),
        ?(bool_decide_eq_false_2 (Match.player2 m = p)) by done.
    + rewrite (bool_decide_eq_true_2 (p = Match.player2 m ∧ _))
        by (split; congruence).
      rewrite (bool_decide_eq_true_2 (p = Match.player1 m ∧ _))
        by (split; congruence).
      rewrite add_counts_add by (try case_bool_decide; lia). rewrite H1, H2.
      by case_bool_decide.
    + rewrite (bool_decide_eq_false_2 (p = Match.player2 m ∧ _))
        by (intros [? ?]; congruence).
      rewrite (bool_decide_eq_true_2 (p = Match.player1 m ∧ _))
        by (split; congruence).
      rewrite H1. case_bool_decide; by rewrite ?Nat.add_0_r.
    + rewrite (bool_decide_eq_true_2 (p = Match.player2 m ∧ _))
        by (split; congruence).
      rewrite (bool_decide_eq_false_2 (p = Match.player1 m ∧ _))
        by (intros [? ?]; congruence).
      rewrite H2. by case_bool_decide.
    + rewrite (bool_decide_eq_false_2 (p = Match.player2 m ∧ _))
        by (intros [? ?]; congruence).
      rewrite (bool_decide_eq_false_2 (p = Match.player1 m ∧ _))
        by (intros [? ?]; congruence).
      unfold add_counts. by case_bool_decide.
Qed.

Lemma count_fold_lookup ms : ∀ stats p,
  foldl (λ player_stats m,
           foldl (count_player m) player_stats [Match.player1 m; Match.player2 m])
        stats ms !! p
  = if bool_decide (p ≠ "BYE")
    then add_counts (stats !! p) (victories p ms) (appearances p ms)
    else stats !! p.
Proof.
  set (F := λ player_stats m,
              foldl (count_player m) player_stats [Match.player1 m; Match.player2 m]).
  induction ms as [|m ms IH]; intros stats p.
  - cbn. unfold add_counts. by case_bool_decide.
  - cbn [foldl]. rewrite IH. unfold F. rewrite count_pair_lookup.
    case_bool_decide; [|done].
    rewrite add_counts_add.
    + unfold victories, appearances. by cbn.
    + apply victory_le_places.
    + apply victories_le_appearances.
Qed.

Lemma sum_list_fmap_perm {A} (f : A → nat) (l l' : list A) :
  l ≡ₚ l' → sum_list (f <$> l) = sum_list (f <$> l').
Proof. intros H. by rewrite H. Qed.

Lemma appearances_bound p ms : appearances p ms ≤ 2 * length ms.
Proof.
  unfold appearances. induction ms as [|m ms IH]; [done|].
  rewrite fmap_cons. cbn [sum_list sum_list_with id length].
  assert (places p m ≤ 2) by (unfold places; repeat case_bool_decide; lia). lia.
Qed.

Lemma listing_elem {A} (m : gmap string A) items k v :
  listing m items → (k, v) ∈ items ↔ m !! k = Some v.
Proof. intros H. unfold listing in H. by rewrite H, elem_of_map_to_list. Qed.

Lemma listing_length {A} (m : gmap string A) items :
  listing m items → length items = size m.
Proof. intros H. unfold listing in H. by rewrite H, length_map_to_list. Qed.

Lemma listing_map_to_list {A} (m : gmap string A) : listing m (map_to_list m).
Proof. unfold listing. reflexivity. Qed.

(** X13: the statistics loop of the spectator dashboard counts, for every
    player other than ["BYE"], the places the player takes in the matches
    it is given (as [player1] and as [player2]) and, among them, those in
    matches whose winner is the player; a player who takes no place has no
    entry, and ["BYE"] never has one. *)
Theorem player_stats_counts (items : list (string * Match.t)) (p : string) :
  p ≠ "BYE" →
  player_stats items !! "BYE" = None
  ∧ player_stats items !! p
    = if bool_decide (appearances p items.*2 = 0) then None
      else Some (PlayerStats.mk (victories p items.*2) (appearances p items.*2)).
Proof.
  intros Hp. unfold player_stats, count_matches. rewrite !count_fold_lookup.
  rewrite (bool_decide_eq_false_2 ("BYE" ≠ "BYE")) by (by intros []).
  rewrite (bool_decide_eq_true_2 (p ≠ "BYE")) by done.
  split; [done|]. unfold add_counts. by rewrite lookup_empty.
Qed.

Lemma player_stats_counts_witness :
  player_stats sample_results !! "BYE" = None
  ∧ player_stats sample_results !! "alice" = Some (PlayerStats.mk 1 1).
Proof.
  destruct (player_stats_counts sample_results "alice") as [Hbye Halice];
    [discriminate|].
  split; [exact Hbye|]. rewrite Halice. vm_compute. reflexivity.
Defined.

(** X14: whatever the order in which the stored matches are listed, the
    statistics are the same. Every entry has at least one match, no more
    wins than matches and at most two matches per stored match, and its
    player is not ["BYE"]; so the guard [stats["matches"] > 0] before the
    win rate always holds. *)
Theorem player_stats_entries (s : ArenaSystem)
    (items items' : list (string * Match.t)) (p : string) (st : PlayerStats.t) :
  listing (matches s) items →
  listing (matches s) items' →
  player_stats items !! p = Some st →
  p ≠ "BYE"
  ∧ 1 ≤ PlayerStats.matches st
  ∧ PlayerStats.wins st ≤ PlayerStats.matches st
  ∧ PlayerStats.matches st ≤ 2 * size (matches s)
  ∧ player_stats items' = player_stats items.
Proof.
  intros Hitems Hitems' Hst.
  assert (items.*2 ≡ₚ items'.*2) as Hperm.
  { unfold listing in Hitems, Hitems'. by rewrite Hitems, Hitems'. }
  unfold player_stats, count_matches in Hst. rewrite count_fold_lookup in Hst.
  assert (p ≠ "BYE") as Hp.
  { intros ->.
    rewrite (bool_decide_eq_false_2 ("BYE" ≠ "BYE")) in Hst by (by intros []).
    by rewrite lookup_empty in Hst. }
  split; [done|].
  rewrite (bool_decide_eq_true_2 (p ≠ "BYE")) in Hst by done.
  unfold add_counts in Hst. rewrite lookup_empty in Hst.
  case_bool_decide as Hzero; [done|]. injection Hst as <-. cbn.
  split; [lia|]. split; [apply victories_le_appearances|].
  split.
  { rewrite <- (listing_length _ _ Hitems), <- (length_fmap snd items).
    apply appearances_bound. }
  apply map_eq. intros q. unfold player_stats, count_matches.
  rewrite !count_fold_lookup.
  case_bool_decide; [|done]. unfold victories, appearances.
  by rewrite !(sum_list_fmap_perm _ items.*2 items'.*2).
Qed.

Lemma player_stats_entries_witness :
  ∃ st, player_stats sample_results !! "bob" = Some st
        ∧ PlayerStats.wins st ≤ PlayerStats.matches st
        ∧ 1 ≤ PlayerStats.matches st.
Proof.
  exists (PlayerStats.mk 0 1).
  assert (player_stats sample_results !! "bob" = Some (PlayerStats.mk 0 1)) as H
    by (vm_compute; reflexivity).
  split; [exact H|].
  destruct (player_stats_entries cup_won_by_alice sample_results sample_results
              "bob" (PlayerStats.mk 0 1)
              (listing_map_to_list _) (listing_map_to_list _) H)
    as (_ & H1 & H2 & _).
  split; [exact H2 | exact H1].
Defined.

(** ** The player's list of tournaments *)

Lemma browse_tournaments_ok s items rows :
  (browse_tournaments items s).1 = Ok rows →
  ∃ k usr, current_user s = Some k ∧ users s !! k = Some usr
    ∧ rows = omap (browse_row s (User.username usr)) items.
Proof.
  unfold browse_tournaments. unfold_M.
  destruct (current_user s) as [k|] eqn:Hk; [|done].
  destruct (users s !! k) as [usr|] eqn:Hu; [|done].
  cbn. intros [= <-]. by exists k, usr.
Qed.

Lemma elem_of_browse s items username row :
  listing (tournaments s) items →
  row ∈ omap (browse_row s username) items
  ↔ ∃ t, tournaments s !! row_id row = Some t
         ∧ browse_row s username (row_id row, t) = Some row.
Proof.
  intros Hitems. rewrite list_elem_of_omap. split.
  - intros ([k t] & Hin & Hrow). apply (listing_elem _ _ _ _ Hitems) in Hin.
    assert (row_id row = k) as ->; [|by exists t].
    unfold browse_row in Hrow. repeat case_match; try done.
    by injection Hrow as <-.
  - intros (t & Ht & Hrow). exists (row_id row, t). split; [|done].
    by apply (listing_elem _ _ _ _ Hitems).
Qed.

Lemma browse_row_leagues s s' username item :
  leagues s' = leagues s → browse_row s' username item = browse_row s username item.
Proof. intros H. destruct item as [tour_id t]. unfold browse_row. by rewrite H. Qed.

Lemma browse_row_joined s username tour_id t :
  browse_row s username (tour_id, joined username t) = None.
Proof.
  unfold browse_row. case_bool_decide; [|done].
  rewrite bool_decide_eq_true_2; [done|].
  cbn. apply elem_of_app. right. by left.
Qed.

(** X15: whatever the order in which the tournaments are listed, a row of
    the player's list of tournaments names a stored tournament that is
    Announced or Open for Registration, and shows [max_players] less the
    number of participants as the spots left. The button under the list
    never answers "Tournament not found" or "Already registered for this
    tournament" and never raises: when the spots left are more than zero
    the application is accepted, and the list drawn again has lost that
    row and kept every other one; otherwise, the row being listed all the
    same, the answer is "Tournament is full" and nothing changes. *)
Theorem apply_from_browse_list (s : ArenaSystem)
    (items : list (string * Tournament.t)) (rows : list tournament_row)
    (row : tournament_row) :
  listing (tournaments s) items →
  (browse_tournaments items s).1 = Ok rows →
  row ∈ rows →
  ∃ t,
    tournaments s !! row_id row = Some t
    ∧ Tournament.status t ∈ ["Announced"; "Open for Registration"]
    ∧ row.2 = pretty (Tournament.max_players t
                      - Z.of_nat (length (Tournament.participants t)))%Z
              +:+ " spots left"
    ∧ if (0 <? Tournament.max_players t
               - Z.of_nat (length (Tournament.participants t)))%Z
      then ∃ s',
             apply_to_tournament row s
             = (Ok (true, "Application submitted successfully"), s')
             ∧ ∀ items', listing (tournaments s') items' →
                 ∃ rows', (browse_tournaments items' s').1 = Ok rows'
                          ∧ ∀ r, r ∈ rows' ↔ r ∈ rows ∧ row_id r ≠ row_id row
      else apply_to_tournament row s = (Ok (false, "Tournament is full"), s).
Proof.
  intros Hitems Hrows Hrow.
  apply browse_tournaments_ok in Hrows as (k & usr & Hk & Hu & ->).
  pose proof Hrow as Hrow0.
  apply (elem_of_browse _ _ _ _ Hitems) in Hrow as (t & Ht & Hrow).
  exists t. split; [exact Ht|].
  unfold browse_row in Hrow.
  case_bool_decide as Hstatus; [|done].
  case_bool_decide as Hreg; [done|]. cbn [negb] in Hrow.
  split; [exact Hstatus|]. split; [by injection Hrow as <-|].
  unfold apply_to_tournament.
  set (tour_id := row_id row) in *. clearbody tour_id. clear Hrow Hrow0 row.
  destruct (Z.ltb_spec 0 (Tournament.max_players t
              - Z.of_nat (length (Tournament.participants t)))) as [Hroom|Hfull].
  - eexists. split.
    + unfold apply_for_tournament. unfold_M. rewrite Ht, Hk, Hu.
      rewrite (bool_decide_eq_false_2 _ Hreg).
      destruct (Z.geb_spec (Z.of_nat (length (Tournament.participants t)))
                  (Tournament.max_players t)); [lia|]. reflexivity.
    + intros items' Hitems'. eexists. split.
      { unfold browse_tournaments. unfold_M.
        cbn [current_user users set_data_file upd_tournaments].
        rewrite Hk, Hu. reflexivity. }
      intros r.
      rewrite (elem_of_browse _ _ _ _ Hitems'), (elem_of_browse _ _ _ _ Hitems).
      cbn [tournaments set_data_file upd_tournaments].
      destruct (decide (row_id r = tour_id)) as [->|Hne].
      * rewrite lookup_alter_eq, Ht. split.
        -- intros (t' & Heq & Hr).
           assert (t' = joined (User.username usr) t) as ->
             by (cbn [fmap option_fmap option_map] in Heq;
                 injection Heq as <-; reflexivity).
           erewrite browse_row_leagues in Hr by reflexivity.
           by rewrite browse_row_joined in Hr.
        -- by intros [_ ?].
      * rewrite lookup_alter_ne by done. split.
        -- intros (t' & Ht' & Hr). split; [|done]. exists t'. split; [done|].
           by erewrite browse_row_leagues in Hr by reflexivity.
        -- intros [(t' & Ht' & Hr) _]. exists t'. split; [done|].
           by erewrite browse_row_leagues by reflexivity.
  - unfold apply_for_tournament. unfold_M. rewrite Ht, Hk, Hu.
    rewrite (bool_decide_eq_false_2 _ Hreg).
    destruct (Z.geb_spec (Z.of_nat (length (Tournament.participants t)))
                (Tournament.max_players t)); [done|lia].
Qed.

Lemma apply_from_browse_list_witness :
  (browse_tournaments (map_to_list (tournaments carol_browsing)) carol_browsing).1
  = Ok [("TOUR_1", "Cup", "Chess", "Open for Registration", "6 spots left")]
  ∧ ∃ s' rows',
      apply_to_tournament
        ("TOUR_1", "Cup", "Chess", "Open for Registration", "6 spots left")
        carol_browsing
      = (Ok (true, "Application submitted successfully"), s')
      ∧ (browse_tournaments (map_to_list (tournaments s')) s').1 = Ok rows'
      ∧ ("TOUR_1", "Cup", "Chess", "Open for Registration", "6 spots left") ∉ rows'.
Proof.
  assert ((browse_tournaments (map_to_list (tournaments carol_browsing))
             carol_browsing).1
          = Ok [("TOUR_1", "Cup", "Chess", "Open for Registration", "6 spots left")])
    as Hrows by (vm_compute; reflexivity).
  split; [exact Hrows|].
  destruct (apply_from_browse_list carol_browsing _ _
              ("TOUR_1", "Cup", "Chess", "Open for Registration", "6 spots left")
              (listing_map_to_list _) Hrows)
    as (t & Ht & _ & _ & Happly); [apply list_elem_of_here|].
  assert (tournaments carol_browsing !! "TOUR_1"
          = Some (Tournament.mk "TOUR_1" "LEAGUE_1" "Cup" "2024-01-01" 8 "100"
                    "Open for Registration" ["alice"; "bob"] [] None "admin" "t5"))
    as Hcup by (vm_compute; reflexivity).
  change (row_id ("TOUR_1", "Cup", "Chess", "Open for Registration", "6 spots left"))
    with "TOUR_1" in Ht.
  rewrite Hcup in Ht. injection Ht as <-.
  cbn [Tournament.max_players Tournament.participants length] in Happly.
  change (0 <? 8 - Z.of_nat 2)%Z with true in Happly.
  destruct Happly as (s' & Hok & Hagain).
  destruct (Hagain _ (listing_map_to_list _)) as (rows' & Hrows' & Hiff).
  exists s', rows'. split; [exact Hok|]. split; [exact Hrows'|].
  intros Hin. apply Hiff in Hin as [_ Hne]. apply Hne. reflexivity.
Defined.

(** ** The spectator's dashboard in reachable states *)

Lemma omap_all_None {A B} (f : A → option B) (l : list A) :
  (∀ x, x ∈ l → f x = None) → omap f l = [].
Proof.
  induction l as [|x l IH]; intros H; [done|]. cbn.
  rewrite (H x) by by left. apply IH. intros y Hy. apply H. by right.
Qed.

Lemma appearances_pos p ms :
  appearances p ms ≠ 0 →
  ∃ m, m ∈ ms ∧ (Match.player1 m = p ∨ Match.player2 m = p).
Proof.
  unfold appearances. induction ms as [|m ms IH]; [done|].
  rewrite fmap_cons. cbn [sum_list sum_list_with id]. cbv beta. intros H.
  destruct (decide (places p m = 0)) as [Hz|Hnz].
  - destruct IH as (m' & Hin & Hp); [lia|]. exists m'. split; [by right|done].
  - exists m. split; [by left|]. unfold places in Hnz.
    repeat case_bool_decide; auto. lia.
Qed.

(** X16: what the spectator's dashboard shows in a reachable state,
    whatever the order in which the collections are listed. The Live
    Matches list is empty, since no call ever sets the status Live. Every
    row of the Tournament History is a stored tournament that is
    Completed, never Archived, and shows a winner that is neither [None]
    nor the empty string. Every player with an entry in the statistics is a
    stored account. *)
Theorem spectator_dashboard_in_reachable_states (s : ArenaSystem)
    (ms : list (string * Match.t)) (ts : list (string * Tournament.t)) :
  reachable s →
  listing (matches s) ms →
  listing (tournaments s) ts →
  live_matches s ms = []
  ∧ (∀ tour_id name league_name winner status,
       (tour_id, name, league_name, winner, status) ∈ tournament_history s ts →
       status = "Completed"
       ∧ (∃ w, winner = Some w ∧ w ≠ "")
       ∧ ∃ t, tournaments s !! tour_id = Some t ∧ Tournament.name t = name
              ∧ Tournament.winner t = winner)
  ∧ (∀ p st, player_stats ms !! p = Some st → is_Some (users s !! p)).
Proof.
  intros Hs Hms Hts. apply reachable_sound in Hs as [Hwf _]. split; [|split].
  - apply omap_all_None. intros [mid m] Hin.
    apply (listing_elem _ _ _ _ Hms) in Hin.
    destruct (wf_matches s Hwf _ _ Hin) as (_ & _ & _ & Hst).
    unfold live_row. rewrite bool_decide_eq_false_2; [done|].
    intros Hlive. destruct Hst as [(Hst & _)|(Hst & _)];
      rewrite Hlive in Hst; discriminate.
  - intros tour_id name league_name winner status Hin.
    apply list_elem_of_omap in Hin as ([k t] & Hin & Hrow).
    apply (listing_elem _ _ _ _ Hts) in Hin.
    destruct (wf_tournaments s Hwf _ _ Hin) as (_ & Hst & Hw & Hc & _).
    unfold history_row in Hrow. case_bool_decide as Hlisted; [|done].
    injection Hrow as <- <- _ <- <-.
    assert (Tournament.status t = "Completed") as Hcompleted.
    { unfold tournament_statuses in Hst. cbn in Hst, Hlisted.
      apply elem_of_cons in Hlisted as [?|Hlisted]; [done|].
      apply list_elem_of_singleton in Hlisted. rewrite Hlisted in Hst.
      repeat (apply elem_of_cons in Hst as [?|Hst]; [discriminate|]).
      by apply elem_of_nil in Hst. }
    split; [done|]. split; [|by exists t].
    destruct (Hc Hcompleted) as [w Hwin]. exists w. split; [done|]. by apply Hw.
  - intros p st Hst. unfold player_stats, count_matches in Hst.
    rewrite count_fold_lookup in Hst. case_bool_decide as Hp.
    + unfold add_counts in Hst. case_bool_decide as Hzero.
      { by rewrite lookup_empty in Hst. }
      apply appearances_pos in Hzero as (m & Hin & Hplayer).
      apply list_elem_of_fmap in Hin as ([mid m'] & -> & Hin).
      apply (listing_elem _ _ _ _ Hms) in Hin. cbn in Hplayer.
      destruct (wf_matches s Hwf _ _ Hin) as (_ & _ & (t & Ht & H1 & H2) & _).
      destruct (wf_tournaments s Hwf _ _ Ht) as (_ & _ & _ & _ & _ & Hpart & _).
      destruct Hplayer as [<-|<-]; by apply Hpart.
    + by rewrite lookup_empty in Hst.
Qed.

Lemma spectator_dashboard_in_reachable_states_witness :
  live_matches cup_won_by_alice (map_to_list (matches cup_won_by_alice)) = []
  ∧ tournament_history cup_won_by_alice (map_to_list (tournaments cup_won_by_alice))
    = [("TOUR_1", "Cup", "Chess", Some "alice", "Completed")]
  ∧ (∀ p st, player_stats (map_to_list (matches cup_won_by_alice)) !! p = Some st →
       is_Some (users cup_won_by_alice !! p)).
Proof.
  destruct (spectator_dashboard_in_reachable_states cup_won_by_alice
              (map_to_list (matches cup_won_by_alice))
              (map_to_list (tournaments cup_won_by_alice)))
    as (Hlive & _ & Hstats).
  { apply reachable_step, reachable_step, steps_reachable, steps_reachable,
      first_run_reachable. }
  { apply listing_map_to_list. }
  { apply listing_map_to_list. }
  split; [exact Hlive|]. split; [vm_compute; reflexivity|exact Hstats].
Defined.

(** ** The player's own tournaments and matches in reachable states *)

(** X17: in a reachable state, whatever the order in which the collections
    are listed, every row of a player's My Matches list is a stored match
    of a stored tournament, shown under that tournament's name, and the
    tournament is a row of the same player's My Tournaments list; the
    opponent shown is a participant of that tournament, and the result
    shown is [None] exactly when the status shown is Scheduled. *)
Theorem my_matches_in_my_tournaments (s : ArenaSystem) (username : string)
    (ms : list (string * Match.t)) (ts : list (string * Tournament.t))
    (match_id tournament opponent status : string) (result : option string) :
  reachable s →
  listing (matches s) ms →
  listing (tournaments s) ts →
  (match_id, tournament, opponent, status, result) ∈ my_matches s username ms →
  ∃ m t,
    matches s !! match_id = Some m
    ∧ tournaments s !! Match.tournament_id m = Some t
    ∧ tournament = Tournament.name t
    ∧ (Match.tournament_id m, Tournament.name t, Tournament.status t)
      ∈ my_tournaments username ts
    ∧ opponent ∈ Tournament.participants t
    ∧ (result = None ↔ status = "Scheduled").
Proof.
  intros Hs Hms Hts Hin. apply reachable_sound in Hs as [Hwf _].
  apply list_elem_of_omap in Hin as ([mid m] & Hin & Hrow).
  apply (listing_elem _ _ _ _ Hms) in Hin.
  destruct (wf_matches s Hwf _ _ Hin) as (_ & _ & (t & Ht & Hp1 & Hp2) & Hst).
  unfold my_match_row in Hrow. rewrite Ht in Hrow. cbn [from_option] in Hrow.
  destruct (bool_decide (Match.player1 m = username)
            || bool_decide (Match.player2 m = username)) eqn:Hmine; [|done].
  injection Hrow as <- <- <- <- <-.
  exists m, t. split; [done|]. split; [done|]. split; [done|].
  split; [|split].
  - apply list_elem_of_omap. exists (Match.tournament_id m, t).
    split; [by apply (listing_elem _ _ _ _ Hts)|].
    unfold my_tournament_row. rewrite bool_decide_eq_true_2; [done|].
    apply orb_true_iff in Hmine as [H|H]; apply bool_decide_eq_true in H;
      by rewrite <- H.
  - by case_bool_decide.
  - destruct Hst as [(-> & -> & _)|(-> & [w ->] & _)]; split; done.
Qed.

Lemma my_matches_in_my_tournaments_witness :
  my_matches cup_won_by_alice "bob" (map_to_list (matches cup_won_by_alice))
  = [("TOUR_1_MATCH_1", "Cup", "alice", "Completed", Some "alice")]
  ∧ ∃ m t,
      matches cup_won_by_alice !! "TOUR_1_MATCH_1" = Some m
      ∧ tournaments cup_won_by_alice !! Match.tournament_id m = Some t
      ∧ (Match.tournament_id m, Tournament.name t, Tournament.status t)
        ∈ my_tournaments "bob" (map_to_list (tournaments cup_won_by_alice))
      ∧ "alice" ∈ Tournament.participants t.
Proof.
  assert (my_matches cup_won_by_alice "bob" (map_to_list (matches cup_won_by_alice))
          = [("TOUR_1_MATCH_1", "Cup", "alice", "Completed", Some "alice")])
    as Hrows by (vm_compute; reflexivity).
  split; [exact Hrows|].
  destruct (my_matches_in_my_tournaments cup_won_by_alice "bob"
              (map_to_list (matches cup_won_by_alice))
              (map_to_list (tournaments cup_won_by_alice))
              "TOUR_1_MATCH_1" "Cup" "alice" "Completed" (Some "alice"))
    as (m & t & Hm & Ht & _ & Hmine & Hopp & _).
  { apply reachable_step, reachable_step, steps_reachable, steps_reachable,
      first_run_reachable. }
  { apply listing_map_to_list. }
  { apply listing_map_to_list. }
  { rewrite Hrows. apply list_elem_of_here. }
  exists m, t. split; [exact Hm|]. split; [exact Ht|].
  split; [exact Hmine|exact Hopp].
Defined.
